(** * p1bench: perturbation benchmark

    A shallow embedding of [p1bench.c]: the calibrator ([test_run],
    [find_count]), the memory workload ([memrun], [memtest]), the options
    and the arguments of [main], the loop that populates the working set,
    the run loop and the post-processing of [main] (histogram, [qsort] with
    [ullcmp], percentiles, absolute times and rates).

    Conventions.
    - [int] is a 32-bit two's complement integer and [unsigned long long] a
      64-bit unsigned one; both are carried as [Z] with the wrap-around
      written out ([sint], [ull]).  Signed arithmetic wraps, as it does for
      the build the source prescribes ([gcc -O0]).
    - [double] is an interface ([Double]); functions of the program are
      written once, over the interface.  Its instance [binary64], the IEEE
      754 doubles of the kernel, is the arithmetic of the program.  A
      second instance, [exact], is the rationals extended with infinities
      and NaN (IEEE special values, no rounding): the arithmetic of the
      formulas as the specification words them.  What is stated on [exact]
      alone tells what the formulas give without rounding, not what the
      program computes; it is claimed of the program only where no
      operation rounds ([myceil]).  Properties of the program are stated
      for every instance or on [binary64].
    - What C leaves undefined is a [fault]: a conversion of a [double] that
      does not fit [int], a division by zero, an array access out of bounds.
    - The clock, the worker thread and the signals are inputs: the clock
      readings around each run, the count the worker has reached when it is
      stopped, the value of the stop flag at each test of the run loop.
    - The options and the arguments stand as [getopt], [atoi] and [atoll]
      hand them over.
    - [main] takes the workload through the count the calibration worker
      reaches, through the clock readings, and through the offsets the
      memory workload reads ([memrun], [memtest]).
    - Left out: the usage message, the lines printed while the runs go on
      and the resource usage of the verbose mode. *)

From Stdlib Require Import ZArith QArith Qround Lia Lqa Bool.
From Stdlib Require Import PrimFloat SpecFloat FloatOps.
From stdpp Require Import base option list sorting.

Local Open Scope Z_scope.

(** ** C integers *)

Definition INT_MIN : Z := - 2 ^ 31.
Definition INT_MAX : Z := 2 ^ 31 - 1.
Definition ULLONG_MAX : Z := 2 ^ 64 - 1.

(** Wrap-around of [unsigned long long] arithmetic, and the conversion of
    any integer to it. *)
Definition ull (z : Z) : Z := z mod 2 ^ 64.

(** Wrap-around of [int] arithmetic, and the conversion of a wider integer
    to [int] (it keeps the low 32 bits). *)
Definition sint (z : Z) : Z := (z + 2 ^ 31) mod 2 ^ 32 - 2 ^ 31.

Definition in_int (z : Z) : bool := (INT_MIN <=? z) && (z <=? INT_MAX).

(** ** Outcome of a computation *)

Inductive fault : Type :=
| Conversion            (* (int)x for a double x outside the range of int *)
| DivByZero             (* integer division by zero *)
| OutOfBounds (i : Z).  (* read of an array at index i, outside of what
                           was written to it *)

Inductive res (A : Type) : Type :=
| Ok (a : A)            (* the computation goes on with a *)
| Exit (code : Z)       (* main returned early with this exit code *)
| Undef (f : fault).    (* undefined behaviour *)

Arguments Ok {A} a.
Arguments Exit {A} code.
Arguments Undef {A} f.

#[export] Instance res_bind : MBind res := fun A B k m =>
  match m with
  | Ok a => k a
  | Exit c => Exit c
  | Undef f => Undef f
  end.

(** [a / b] on [unsigned long long]. *)
Definition ull_div (a b : Z) : res Z :=
  if b =? 0 then Undef DivByZero else Ok (a / b).

(** [a[i]] for an array of [unsigned long long] or [int]. *)
Definition rd (a : list Z) (i : Z) : res Z :=
  if i <? 0 then Undef (OutOfBounds i)
  else match a !! Z.to_nat i with
       | Some x => Ok x
       | None => Undef (OutOfBounds i)
       end.

(** ** The type double *)

Class Double (D : Type) : Type := {
  of_Z : Z -> D;                (* (double)n *)
  dadd : D -> D -> D;
  dsub : D -> D -> D;
  dmul : D -> D -> D;
  ddiv : D -> D -> D;
  dltb : D -> D -> bool;        (* x < y *)
  dleb : D -> D -> bool;        (* x <= y *)
  trunc : D -> option Z         (* integral part, toward zero; none for
                                   infinities and NaN *)
}.

(** [(int)x]: defined when the integral part of [x] fits [int]. *)
Definition to_int {D} `{Double D} (x : D) : res Z :=
  match trunc x with
  | Some z => if in_int z then Ok z else Undef Conversion
  | None => Undef Conversion
  end.

(** *** IEEE 754 binary64 *)

Definition f64_of_Z (z : Z) : float :=
  SF2Prim (binary_normalize prec emax z 0 false).

Definition f64_trunc (x : float) : option Z :=
  match Prim2SF x with
  | S754_zero _ => Some 0
  | S754_finite s m e =>
      let a := match e with
               | Zneg p => Z.pos m / 2 ^ Z.pos p
               | _ => Z.pos m * 2 ^ e
               end in
      Some (if s then - a else a)
  | S754_infinity _ | S754_nan => None
  end.

#[export] Instance binary64 : Double float := {
  of_Z := f64_of_Z;
  dadd := PrimFloat.add;
  dsub := PrimFloat.sub;
  dmul := PrimFloat.mul;
  ddiv := PrimFloat.div;
  dltb := PrimFloat.ltb;
  dleb := PrimFloat.leb;
  trunc := f64_trunc
}.

(** *** Exact arithmetic with the IEEE special values

    Zero has no sign here: every zero the program divides by comes from an
    [unsigned long long], so it is [+0]. *)

Inductive xreal : Type :=
| Fin (q : Q)
| Inf (neg : bool)
| NaN.

Definition Qltb (a b : Q) : bool := negb (Qle_bool b a).
Definition Qzero (a : Q) : bool := Qeq_bool a 0.

Definition xopp (x : xreal) : xreal :=
  match x with
  | Fin a => Fin (- a)
  | Inf s => Inf (negb s)
  | NaN => NaN
  end.

Definition xadd (x y : xreal) : xreal :=
  match x, y with
  | NaN, _ | _, NaN => NaN
  | Fin a, Fin b => Fin (a + b)
  | Inf s, Fin _ | Fin _, Inf s => Inf s
  | Inf s, Inf t => if eqb s t then Inf s else NaN
  end.

Definition xsub (x y : xreal) : xreal := xadd x (xopp y).

Definition xmul (x y : xreal) : xreal :=
  match x, y with
  | NaN, _ | _, NaN => NaN
  | Fin a, Fin b => Fin (a * b)
  | Inf s, Fin b | Fin b, Inf s =>
      if Qzero b then NaN else Inf (xorb s (Qltb b 0))
  | Inf s, Inf t => Inf (xorb s t)
  end.

Definition xdiv (x y : xreal) : xreal :=
  match x, y with
  | NaN, _ | _, NaN => NaN
  | Fin a, Fin b =>
      if Qzero b then (if Qzero a then NaN else Inf (Qltb a 0))
      else Fin (a / b)
  | Fin _, Inf _ => Fin 0
  | Inf s, Fin b => Inf (xorb s (Qltb b 0))
  | Inf _, Inf _ => NaN
  end.

Definition xltb (x y : xreal) : bool :=
  match x, y with
  | Fin a, Fin b => Qltb a b
  | Inf true, Fin _ | Fin _, Inf false | Inf true, Inf false => true
  | _, _ => false
  end.

Definition xleb (x y : xreal) : bool :=
  match x, y with
  | Fin a, Fin b => Qle_bool a b
  | Inf true, (Fin _ | Inf _) | Fin _, Inf false | Inf false, Inf false => true
  | _, _ => false
  end.

Definition xtrunc (x : xreal) : option Z :=
  match x with
  | Fin a => Some (Z.quot (Qnum a) (Z.pos (Qden a)))
  | _ => None
  end.

#[export] Instance exact : Double xreal := {
  of_Z := fun z => Fin (inject_Z z);
  dadd := xadd;
  dsub := xsub;
  dmul := xmul;
  ddiv := xdiv;
  dltb := xltb;
  dleb := xleb;
  trunc := xtrunc
}.

(** ** Histogram buckets *)

Definition BUCKETS : Z := 200.

Section Histogram.
Context {D : Type} `{Double D}.

(** [hist_idx]: value to histogram index. *)
Definition hist_idx (value : D) (buckets : Z) : res Z :=
  idx ← (if dltb value (of_Z 1) then
            to_int (dmul (of_Z 10) value)
          else if dltb value (of_Z 20) then
            k ← to_int (dsub value (of_Z 1)); Ok (sint (10 + k))
          else
            k ← to_int (ddiv (dsub value (of_Z 20)) (of_Z 10));
            Ok (sint (29 + k)));
  Ok (if idx >? sint (buckets - 1) then sint (buckets - 1) else idx).

(** [hist_val]: histogram index to minimum value. *)
Definition hist_val (idx : Z) : D :=
  if idx <? 10 then
    ddiv (of_Z idx) (of_Z 10)
  else if idx <? 29 then
    dadd (dsub (of_Z idx) (of_Z 10)) (of_Z 1)
  else
    dadd (dmul (of_Z (sint (idx - 29))) (of_Z 10)) (of_Z 20).

(** [myceil]: [x > (int)x ? (int)x + 1 : (int)x]. *)
Definition myceil (x : D) : res Z :=
  k ← to_int x;
  if dltb (of_Z k) x then Ok (sint (k + 1)) else Ok k.

End Histogram.

(** ** Workloads

    A pointer into the working set is its offset from [g_mem]; the loops
    return, beside their result, the offsets they read, in order. *)

(** [spinrun] counts up to [count] and returns it. *)
Definition spinrun (count : Z) : Z := count.

(** [spintest], stopped after [n] turns of its loop. *)
Definition spintest (n : nat) (count : Z) : Z :=
  Nat.iter n (fun c => ull (c + 1)) count.

Section Memory.
Variables g_memsize g_stride : Z.

(** The end of one turn of the loop of [memrun] and [memtest]:
    [memp += g_stride; if (memp > (g_mem + g_memsize)) memp = g_mem;] *)
Definition mem_next (memp : Z) : Z :=
  let memp := memp + g_stride in
  if memp >? g_memsize then 0 else memp.

(** [n] turns from offset [memp]: [junk += memp[0]] reads offset [memp]. *)
Fixpoint mem_reads (n : nat) (memp : Z) : list Z :=
  match n with
  | O => []
  | S n => memp :: mem_reads n (mem_next memp)
  end.

(** [memrun]: [count] turns; returns [i], which has reached [count]. *)
Definition memrun (count : Z) : Z * list Z :=
  (count, mem_reads (Z.to_nat count) 0).

(** [memtest], stopped after [n] turns of its loop. *)
Definition memtest (n : nat) (count : Z) : Z * list Z :=
  (Nat.iter n (fun c => ull (c + 1)) count, mem_reads n 0).
End Memory.

(** ** Calibration *)

Record timeval : Type := { tv_sec : Z; tv_usec : Z }.

(** [1000000 * (ts[1].tv_sec - ts[0].tv_sec) + (ts[1].tv_usec -
    ts[0].tv_usec) / 1], stored in an [unsigned long long]. *)
Definition elapsed_us (ts : timeval * timeval) : Z :=
  ull (1000000 * (tv_sec ts.2 - tv_sec ts.1)
       + (tv_usec ts.2 - tv_usec ts.1) ÷ 1).

(** What the worker thread of [test_run] does: whether it could be created,
    the count it leaves when stopped (from the count it starts with), and
    whether the signal could be sent. *)
Record worker : Type := {
  created : bool;
  loop : Z -> Z;
  killed : bool
}.

(** [test_run]: the count once the worker is joined; [exit(1)] when the
    thread cannot be created or signalled. *)
Definition test_run (target_us : Z) (count : Z) (w : worker) : res Z :=
  if target_us =? 0 then Ok count
  else if negb (created w) then Exit 1
  else let count := loop w 0 in
       if negb (killed w) then Exit 1 else Ok count.

(** The timed trials of [find_count], trial [i] between the two readings
    [clock i]. *)
Fixpoint trials (n : nat) (i : nat) (clock : nat -> timeval * timeval)
    (fastest_time_us : Z) : Z :=
  match n with
  | O => fastest_time_us
  | S n =>
      let time_us := elapsed_us (clock i) in
      trials n (S i) clock
        (if time_us <? fastest_time_us then time_us else fastest_time_us)
  end.

(** [find_count].  What [run(iter_count)] takes shows in the clock
    readings. *)
Definition find_count (target_us : Z) (test_us test_runs : Z) (w : worker)
    (clock : nat -> timeval * timeval) : res Z :=
  iter_count ← test_run (ull test_us) 0 w;
  let fastest_time_us := trials (Z.to_nat test_runs) 0 clock ULLONG_MAX in
  ull_div (ull (iter_count * target_us)) fastest_time_us.

(** ** Sorting the runs *)

(** [ullcmp]: [return a - b;], the difference of two [unsigned long long]
    returned as an [int]. *)
Definition ullcmp (a b : Z) : Z := sint (ull (a - b)).

(** [qsort] is the C library's; its algorithm is not fixed.  It stands here
    as an insertion sort that asks the comparison function [compar] and
    nothing else about the elements. *)
Fixpoint qsort_insert (compar : Z -> Z -> Z) (x : Z) (l : list Z) : list Z :=
  match l with
  | [] => [x]
  | y :: l' =>
      if compar x y <=? 0 then x :: l else y :: qsort_insert compar x l'
  end.

Definition qsort (compar : Z -> Z -> Z) (base : list Z) : list Z :=
  foldr (qsort_insert compar) [] base.

(** ** The start of [main]: options, arguments, working set

    [getopt], [atoi] and [atoll] are the C library's: an option stands
    here as [getopt] hands it over, a number as [atoi] or [atoll] has read
    it. *)

Inductive option_c : Type :=
| Opt_m (optarg : Z)    (* 'm', with atoi(optarg) *)
| Opt_v                 (* 'v' *)
| Opt_h                 (* 'h' *)
| Opt_other.            (* '?': not an option of the program *)

(** What the options set: [g_memsize], [verbose], and whether [run] and
    [test] are [memrun] and [memtest] rather than [spinrun] and
    [spintest]. *)
Record options : Type := {
  memsize : Z;
  verbose : bool;
  memory : bool
}.

(** [g_memsize = 0], [verbose = 0], [run = spinrun], [test = spintest]. *)
Definition defaults : options :=
  {| memsize := 0; verbose := false; memory := false |}.

(** The [switch] on one option.  [atoi(optarg) * 1024 * 1024] is formed in
    [int] and stored in an [unsigned long long]; [return 0] after the usage
    message is [Exit 0]. *)
Definition option_case (o : options) (c : option_c) : res options :=
  match c with
  | Opt_m optarg =>
      let g_memsize := ull (sint (sint (optarg * 1024) * 1024)) in
      if g_memsize =? 0 then Exit 0     (* -m Mbytes must be non-zero *)
      else Ok {| memsize := g_memsize; verbose := verbose o;
                 memory := true |}
  | Opt_v => Ok {| memsize := memsize o; verbose := true;
                   memory := memory o |}
  | Opt_h => Exit 0
  | Opt_other => Exit 0
  end.

(** [while ((c = getopt(argc, argv, "hm:v")) != -1)]. *)
Fixpoint getopt_loop (l : list option_c) (o : options) : res options :=
  match l with
  | [] => Ok o
  | c :: l => o' ← option_case o c; getopt_loop l o'
  end.

(** The arguments left after the options, each as [atoll] reads it: they
    give [target_us] and [max_runs]; more than two, and [main] prints the
    usage message and returns 0. *)
Definition arguments (args : list Z) : res (Z * Z) :=
  let argc := Z.of_nat (length args) in
  if argc >? 2 then Exit 0
  else
    let target_us := match args with
                     | ms :: _ => ull (ms * 1000)
                     | [] => 100 * 1000
                     end in
    let max_runs := match args with
                    | _ :: count :: _ => sint count
                    | _ => 100
                    end in
    Ok (target_us, max_runs).

(** The loop that populates the working set, [memp] an offset from
    [g_mem]: [for (memp = g_mem; memp < (g_mem + g_memsize);
    memp += pagesize) memp[0] = 'A';].  It gives the offsets written, in
    order, or nothing when the fuel runs out. *)
Fixpoint populate (fuel : nat) (g_memsize pagesize memp : Z)
    : option (list Z) :=
  match fuel with
  | O => None
  | S fuel =>
      if memp <? g_memsize then
        cons memp <$> populate fuel g_memsize pagesize (memp + pagesize)
      else Some []
  end.

(** The working set is the block [g_mem[0 .. g_memsize - 1]]: a read at
    an offset outside of it is a fault. *)
Fixpoint inside (g_memsize : Z) (reads : list Z) : res unit :=
  match reads with
  | [] => Ok tt
  | off :: reads =>
      if (0 <=? off) && (off <? g_memsize) then inside g_memsize reads
      else Undef (OutOfBounds off)
  end.

(** What the workload the options chose reads in [count] turns:
    [run(count)] is [memrun(count)] in memory mode, with the stride of 64
    that [main] sets, and [test] stopped at the count [count] has made the
    same turns from the same offset; [spinrun] and [spintest] read
    nothing. *)
Definition workload_reads (o : options) (count : Z) : res unit :=
  if memory o then inside (memsize o) (memrun (memsize o) 64 count).2
  else Ok tt.

(** ** The run loop and the report of [main] *)

Definition Zsum (l : list Z) : Z := foldr Z.add 0 l.

Section Main.
Context {D : Type} `{Double D}.

(** [100 * (((double)a / b) - 1)]: percent of [a] over [b]. *)
Definition pct_over (a b : Z) : D :=
  dmul (of_Z 100) (dsub (ddiv (of_Z a) (of_Z b)) (of_Z 1)).

(** *** The run loop *)

Record run_state : Type := {
  time_us : Z;
  diff_pct : D;
  fastest_time_us : Z;
  slowest_time_us : Z;
  runs_us : list Z        (* runs_us[0 .. i-1], as written so far *)
}.

Definition run_init : run_state :=
  {| time_us := 0; diff_pct := of_Z 0; fastest_time_us := ULLONG_MAX;
     slowest_time_us := 0; runs_us := [] |}.

(** One run, between the two clock readings [ts].  The per-run lines
    printed and the resource usage of the verbose mode are left out. *)
Definition run_body (st : run_state) (ts : timeval * timeval) : run_state :=
  let last_us := time_us st in
  let t := elapsed_us ts in
  {| time_us := t;
     fastest_time_us :=
       if t <? fastest_time_us st then t else fastest_time_us st;
     slowest_time_us :=
       if t >? slowest_time_us st then t else slowest_time_us st;
     runs_us := runs_us st ++ [t];
     diff_pct := if last_us =? 0 then diff_pct st else pct_over t last_us |}.

(** [for (i = 0; g_mainrun && i < max_runs; i++)]: [mainrun i] is the
    flag as the test before run [i] sees it.  At most [max_runs] turns. *)
Fixpoint run_loop (fuel : nat) (max_runs : Z) (mainrun : nat -> bool)
    (clock : nat -> timeval * timeval) (i : nat) (st : run_state)
    : nat * run_state :=
  match fuel with
  | O => (i, st)
  | S fuel =>
      if mainrun i && (Z.of_nat i <? max_runs) then
        run_loop fuel max_runs mainrun clock (S i) (run_body st (clock i))
      else (i, st)
  end.

(** *** Histogram pass *)

Record hist_state : Type := {
  hist : list Z;
  max_idx : Z;
  total_time_us : Z
}.

Definition hist_init : hist_state :=
  {| hist := replicate (Z.to_nat BUCKETS) 0; max_idx := 0;
     total_time_us := 0 |}.

(** One turn of the histogram loop, for the run of time [t]. *)
Definition hist_step (fastest : Z) (st : hist_state) (t : Z)
    : res hist_state :=
  idx ← hist_idx (pct_over t fastest) BUCKETS;
  if idx <? 0 then Exit 1    (* ERROR: negative hist idx; fix program. *)
  else
    c ← rd (hist st) idx;
    Ok {| hist := <[Z.to_nat idx := sint (c + 1)]> (hist st);
          max_idx := if idx >? max_idx st then idx else max_idx st;
          total_time_us := ull (total_time_us st + t) |}.

Fixpoint hist_pass (fastest : Z) (l : list Z) (st : hist_state)
    : res hist_state :=
  match l with
  | [] => Ok st
  | t :: l => st' ← hist_step fastest st t; hist_pass fastest l st'
  end.

(** [hist[0 .. max_idx]]. *)
Definition shown (st : hist_state) : list Z :=
  take (Z.to_nat (max_idx st + 1)) (hist st).

(** The loop that finds [max_bucket_count]. *)
Definition max_bucket_count (st : hist_state) : Z :=
  foldl (fun m c => if c >? m then c else m) 0 (shown st).

(** *** Histogram rows *)

Record row : Type := {
  row_min : D;          (* Slower% *)
  row_last : bool;      (* "+" rather than ":" *)
  row_count : Z;        (* Count *)
  row_pct : D;          (* Count% *)
  row_bar : Z           (* stars *)
}.

Definition bar_width : Z := 50.

(** The row printed for bucket [i], which holds [c] runs. *)
Definition hist_row (runs mbc : Z) (i : Z) (c : Z) : res row :=
  bar ← myceil (ddiv (dmul (of_Z bar_width) (of_Z c)) (of_Z mbc));
  Ok {| row_min := hist_val i;
        row_last := i =? BUCKETS - 1;
        row_count := c;
        row_pct := ddiv (dmul (of_Z 100) (of_Z c)) (of_Z runs);
        row_bar := bar |}.

Fixpoint hist_rows (runs mbc : Z) (i : Z) (l : list Z) : res (list row) :=
  match l with
  | [] => Ok []
  | c :: l =>
      r ← hist_row runs mbc i c;
      rs ← hist_rows runs mbc (i + 1) l;
      Ok (r :: rs)
  end.

(** *** Percentiles *)

(** [runs * p / 100 - 1]. *)
Definition pct_index (runs p : Z) : Z :=
  sint (sint (runs * p) ÷ 100 - 1).

(** The percentiles printed for [runs] runs, each with the index it reads
    in the sorted array. *)
Definition percentile_reads (runs : Z) : list (Z * Z) :=
  (if runs >=? 3 then [(50, pct_index runs 50)] else []) ++
  (if runs >=? 10 then [(90, pct_index runs 90)] else []) ++
  (if runs >=? 100 then [(99, pct_index runs 99)] else []) ++
  [(100, sint (runs - 1))].

(** [(double)100 * (runs_us[i] - fastest_time_us) / fastest_time_us]. *)
Definition percentile (sorted : list Z) (fastest : Z) (pi : Z * Z)
    : res (Z * Z * D) :=
  x ← rd sorted pi.2;
  Ok (pi.1, x,
      ddiv (dmul (of_Z 100) (of_Z (ull (x - fastest)))) (of_Z fastest)).

Fixpoint percentiles (sorted : list Z) (fastest : Z) (l : list (Z * Z))
    : res (list (Z * Z * D)) :=
  match l with
  | [] => Ok []
  | pi :: l =>
      r ← percentile sorted fastest pi;
      rs ← percentiles sorted fastest l;
      Ok (r :: rs)
  end.

(** *** Absolute times and rates *)

Record summary : Type := {
  fastest_ms : D; median_ms : D; mean_ms : D; slowest_ms : D;
  fastest_rate : Z; median_rate : Z; mean_rate : Z; slowest_rate : Z
}.

(** The two lines of absolute times and rates. *)
Definition summarize (sorted : list Z) (runs : Z)
    (fastest slowest total iter_count : Z) : res summary :=
  m ← rd sorted (pct_index runs 50);
  x0 ← rd sorted 0;
  r0 ← ull_div (ull (iter_count * 1000000)) x0;
  m' ← rd sorted (pct_index runs 50);
  rm ← ull_div (ull (iter_count * 1000000)) m';
  mean ← ull_div total (ull runs);
  ra ← ull_div (ull (iter_count * 1000000)) mean;
  xl ← rd sorted (sint (runs - 1));
  rl ← ull_div (ull (iter_count * 1000000)) xl;
  Ok {| fastest_ms := ddiv (of_Z fastest) (of_Z 1000);
        median_ms := ddiv (of_Z m) (of_Z 1000);
        mean_ms := ddiv (of_Z total) (of_Z (sint (runs * 1000)));
        slowest_ms := ddiv (of_Z slowest) (of_Z 1000);
        fastest_rate := r0; median_rate := rm; mean_rate := ra;
        slowest_rate := rl |}.

(** *** [main], from the test of the target on *)

Record report : Type := {
  rep_iter_count : Z;
  rep_runs : Z;
  rep_hist : hist_state;
  rep_rows : list row;
  rep_sorted : list Z;
  rep_percentiles : list (Z * Z * D);
  rep_summary : summary
}.

(** The post-processing of [main], after [runs = i]. *)
Definition post_process (iter_count : Z) (runs : Z) (st : run_state)
    : res report :=
  let fastest := fastest_time_us st in
  hs ← hist_pass fastest (runs_us st) hist_init;
  let mbc := max_bucket_count hs in
  rows ← hist_rows runs mbc 0 (shown hs);
  let sorted := qsort ullcmp (runs_us st) in
  ps ← percentiles sorted fastest (percentile_reads runs);
  sm ← summarize sorted runs fastest (slowest_time_us st)
         (total_time_us hs) iter_count;
  Ok {| rep_iter_count := iter_count; rep_runs := runs; rep_hist := hs;
        rep_rows := rows; rep_sorted := sorted; rep_percentiles := ps;
        rep_summary := sm |}.

(** What [main] is given: the arguments once parsed, and what the system
    answers. *)
Record world : Type := {
  given : options;                        (* what the options have set *)
  target_us : Z;                          (* atoll(time) * 1000, or 100000 *)
  max_runs : Z;                           (* count, or 100 *)
  malloc_ok : bool;                       (* malloc of runs_us *)
  mem_ok : bool;                          (* malloc of g_mem *)
  calib_worker : worker;
  calib_clock : nat -> timeval * timeval;
  mainrun : nat -> bool;                  (* g_mainrun before run i *)
  run_clock : nat -> timeval * timeval
}.

(** [if (g_memsize) { ... }]: the working set of the memory mode is
    allocated, and [main] returns 1 when it cannot be.  The loop that then
    writes into each page of the block is [populate]; [main] reads nothing
    of what it writes. *)
Definition working_set (w : world) : res unit :=
  if memsize (given w) =? 0 then Ok tt
  else if negb (mem_ok w) then Exit 1  (* ERROR allocating -m memory. *)
  else Ok tt.

(** [main] after the options: an [Ok] report is [return (0)].  The workload
    ([run], [test]) enters through the count the worker reaches, through
    the clock readings, and through what it reads: the calibration worker,
    once created, reads as it counts (and the timed trials of [find_count]
    read the same again), then each run reads for [iter_count] turns. *)
Definition main (w : world) : res report :=
  if target_us w =? 0 then Exit 1      (* ERROR: target ms must be > 0 *)
  else if negb (malloc_ok w) then Exit 1
  else
    _ ← working_set w;
    _ ← (if created (calib_worker w)
         then workload_reads (given w) (loop (calib_worker w) 0)
         else Ok tt);
    iter_count ← find_count (target_us w) (100 * 1000) 5
                   (calib_worker w) (calib_clock w);
    let '(i, st) := run_loop (Z.to_nat (max_runs w)) (max_runs w)
                      (mainrun w) (run_clock w) 0%nat run_init in
    _ ← (if (0 <? i)%nat then workload_reads (given w) iter_count
         else Ok tt);
    post_process iter_count (Z.of_nat i) st.

End Main.

Arguments run_state D : clear implicits.
Arguments row D : clear implicits.
Arguments summary D : clear implicits.
Arguments report D : clear implicits.

(** * Vocabulary of the properties *)

(** The bucketing rule as the specification words it. *)
Definition spec_bucket (v : Q) : Z :=
  Z.min 199
    (if Qltb v 1 then Qfloor (10 * v)
     else if Qltb v 20 then 10 + Qfloor (v - 1)
     else 29 + Qfloor ((v - 20) / 10)).

(** The step-size bands of the index: the cases of [hist_val]. *)
Inductive band : Type := Tenths | Units | Tens.

Definition band_of (idx : Z) : band :=
  if idx <? 10 then Tenths else if idx <? 29 then Units else Tens.

(** [hist_idx] gives [i] back from [hist_val i]. *)
Definition inverts {D : Type} `{Double D} (i : Z) : bool :=
  match hist_idx (hist_val i) BUCKETS with
  | Ok j => j =? i
  | _ => false
  end.

(** The buckets after [n] runs: 200 counts, none negative, [n] in all. *)
Definition hist_inv (st : hist_state) (n : Z) : Prop :=
  length (hist st) = 200%nat /\ Forall (Z.le 0) (hist st) /\
  Zsum (hist st) = n.

(** The runs of the specification's example, and the histogram [main]
    makes of them on the IEEE doubles. *)
Definition example_runs : list Z := [100; 105; 110; 300].

Definition example_hist : hist_state :=
  Eval vm_compute in
    match @hist_pass float binary64 100 example_runs hist_init with
    | Ok hs => hs
    | _ => hist_init
    end.

(** After [i] runs: [runs_us] holds [i] times, and [fastest_time_us] is
    below each of them and is one of them (it is [~0ULL] before the
    first). *)
Definition run_inv {D : Type} (i : nat) (st : run_state D) : Prop :=
  length (runs_us st) = i /\
  Forall (fun t => 0 <= fastest_time_us st <= t /\ t <= ULLONG_MAX)
    (runs_us st) /\
  (fastest_time_us st = ULLONG_MAX \/ fastest_time_us st ∈ runs_us st).

(** Two clock readings [t] microseconds apart. *)
Definition tick (t : Z) : timeval * timeval :=
  ({| tv_sec := 0; tv_usec := 0 |},
   {| tv_sec := t / 1000000; tv_usec := t mod 1000000 |}).

(** A world where the calibration worker reaches [count], the five timed
    trials take [trial_us] each, the stop flag is down from the test before
    run [stop] on, and the runs take the times [times]. *)
Definition world_of (target max : Z) (count trial_us : Z) (stop : nat)
    (times : list Z) : world :=
  {| given := defaults; target_us := target; max_runs := max;
     malloc_ok := true; mem_ok := true;
     calib_worker := {| created := true; loop := fun _ => count;
                        killed := true |};
     calib_clock := fun _ => tick trial_us;
     mainrun := fun i => (i <? stop)%nat;
     run_clock := fun i => tick (default 0 (times !! i)) |}.

(** The percentiles printed for [runs] runs. *)
Definition reported (runs : Z) : list Z := (percentile_reads runs).*1.

(** Of a report: the array as sorted, and each percentile with the time
    read for it. *)
Definition sorted_and_read {D : Type} (r : res (report D))
  : option (list Z * list (Z * Z)) :=
  match r with
  | Ok rep => Some (rep_sorted rep, (rep_percentiles rep).*1)
  | _ => None
  end.

(** A calibration worker stopped at the count 300000000. *)
Definition calib_example : worker :=
  {| created := true; loop := fun _ => 300000000; killed := true |}.

(** The runs of the example, in a world of their own. *)
Definition example_world : world :=
  world_of 100000 4 300000000 100000 4 example_runs.

(** The state after the runs of clock readings [tss], in order. *)
Definition after_runs {D : Type} `{Double D} (st : run_state D)
    (tss : list (timeval * timeval)) : run_state D :=
  foldl run_body st tss.

(** After the runs so far: [slowest_time_us] is above each recorded time
    and is one of them (it is 0 before the first). *)
Definition slow_inv {D : Type} (st : run_state D) : Prop :=
  Forall (fun t => 0 <= t <= slowest_time_us st) (runs_us st) /\
  ((runs_us st = [] /\ slowest_time_us st = 0) \/
   slowest_time_us st ∈ runs_us st).

(** The run of time [t] lands in bucket [i]. *)
Definition lands {D : Type} `{Double D} (fastest i t : Z) : bool :=
  match hist_idx (pct_over t fastest) BUCKETS with
  | Ok j => j =? i
  | _ => false
  end.

(** The number of runs of [l] that land in bucket [i]. *)
Fixpoint landed {D : Type} `{Double D} (fastest i : Z) (l : list Z) : Z :=
  match l with
  | [] => 0
  | t :: l => (if lands fastest i t then 1 else 0) + landed fastest i l
  end.

(** The buckets above [max_idx] are empty, and bucket [max_idx] is not
    unless [max_idx] is 0. *)
Definition top_inv (st : hist_state) : Prop :=
  0 <= max_idx st < 200 /\
  Forall (fun c => c = 0) (drop (Z.to_nat (max_idx st + 1)) (hist st)) /\
  (max_idx st = 0 \/
   exists c, hist st !! Z.to_nat (max_idx st) = Some c /\ 1 <= c).

(** A computation that does not leave [main]: it gives a value or is
    undefined. *)
Definition never_exits {A : Type} (m : res A) : Prop :=
  forall code, m <> Exit code.

(** * Properties *)

(** ** Integers and rationals *)

Lemma sint_id (z : Z) : INT_MIN <= z <= INT_MAX -> sint z = z.
Proof.
  unfold sint, INT_MIN, INT_MAX. intros Hz.
  rewrite Z.mod_small; lia.
Qed.

Lemma in_int_true (z : Z) : INT_MIN <= z <= INT_MAX -> in_int z = true.
Proof. unfold in_int. intros Hz. apply andb_true_iff. lia. Qed.

Lemma Qltb_true (a b : Q) : Qltb a b = true <-> (a < b)%Q.
Proof.
  unfold Qltb. rewrite negb_true_iff, <- not_true_iff_false, Qle_bool_iff.
  split; [apply Qnot_le_lt | apply Qlt_not_le].
Qed.

Lemma Qltb_false (a b : Q) : Qltb a b = false <-> (b <= a)%Q.
Proof. unfold Qltb. rewrite negb_false_iff. apply Qle_bool_iff. Qed.

Lemma Qfloor_lt_Z (r : Q) (z : Z) : (r < inject_Z z)%Q -> Qfloor r < z.
Proof.
  intros Hr. rewrite Zlt_Qlt.
  eapply Qle_lt_trans; [apply Qfloor_le | exact Hr].
Qed.

Lemma Qfloor_ge_Z (r : Q) (z : Z) : (inject_Z z <= r)%Q -> z <= Qfloor r.
Proof.
  intros Hr. rewrite <- (Qfloor_Z z). now apply Qfloor_resp_le.
Qed.

(** On a value that is not negative, the conversion to an integer is the
    floor. *)
Lemma xtrunc_floor (r : Q) : (0 <= r)%Q -> xtrunc (Fin r) = Some (Qfloor r).
Proof.
  destruct r as [n d]. unfold Qle. simpl. intros Hn.
  rewrite Z.quot_div_nonneg; [reflexivity | lia | lia].
Qed.

Lemma to_int_floor (r : Q) (lo hi : Z) :
  (inject_Z lo <= r)%Q -> (r < inject_Z hi)%Q -> 0 <= lo -> hi <= INT_MAX + 1 ->
  @to_int xreal exact (Fin r) = Ok (Qfloor r) /\ lo <= Qfloor r < hi.
Proof.
  intros Hlo Hhi H0 Hmax.
  assert (Hr : (0 <= r)%Q).
  { eapply Qle_trans; [| exact Hlo]. change 0%Q with (inject_Z 0). now rewrite <- Zle_Qle. }
  pose proof (Qfloor_lt_Z _ _ Hhi). pose proof (Qfloor_ge_Z _ _ Hlo).
  split; [| lia].
  unfold to_int. cbn [trunc exact]. rewrite (xtrunc_floor _ Hr).
  rewrite in_int_true; [reflexivity | unfold INT_MIN, INT_MAX in *; lia].
Qed.

(** ** Bucket index *)

Ltac qlra := unfold inject_Z in *; lra.

(** In exact arithmetic [hist_idx] is the rule of the specification for
    every value from 0 up to 21474836210, where [29 + (int)...] leaves the
    range of [int]. *)
Lemma hist_idx_spec_bucket (v : Q) :
  (0 <= v)%Q -> (v < 21474836210)%Q ->
  @hist_idx xreal exact (Fin v) BUCKETS = Ok (spec_bucket v).
Proof.
  intros H0 Hmax. unfold hist_idx, spec_bucket.
  cbn [dltb dmul dsub ddiv of_Z exact xltb xmul xsub xadd xdiv xopp].
  change (sint (BUCKETS - 1)) with 199.
  change (inject_Z 1) with 1%Q. change (inject_Z 20) with 20%Q.
  change (inject_Z 10) with 10%Q.
  change (Qzero 10) with false. cbv iota.
  change (Qplus v (Qopp 1)) with (Qminus v 1).
  change (Qplus v (Qopp 20)) with (Qminus v 20).
  destruct (Qltb v 1) eqn:E1.
  - apply Qltb_true in E1.
    assert (Hlo : (inject_Z 0 <= 10 * v)%Q) by qlra.
    assert (Hhi : (10 * v < inject_Z 10)%Q) by qlra.
    destruct (to_int_floor _ 0 10 Hlo Hhi) as [-> Hk];
      [lia | unfold INT_MAX; lia |].
    cbn [mbind res_bind]. f_equal. destruct (Z.gtb_spec (Qfloor (10 * v)) 199); lia.
  - apply Qltb_false in E1.
    destruct (Qltb v 20) eqn:E2.
    + apply Qltb_true in E2.
      assert (Hlo : (inject_Z 0 <= v - 1)%Q) by qlra.
      assert (Hhi : (v - 1 < inject_Z 19)%Q) by qlra.
      destruct (to_int_floor _ 0 19 Hlo Hhi) as [-> Hk];
        [lia | unfold INT_MAX; lia |].
      cbn [mbind res_bind]. rewrite sint_id by (unfold INT_MIN, INT_MAX; lia).
      f_equal. destruct (Z.gtb_spec (10 + Qfloor (v - 1)) 199); lia.
    + apply Qltb_false in E2.
      assert (Hlo : (inject_Z 0 <= (v - 20) / 10)%Q)
        by (apply Qle_shift_div_l; qlra).
      assert (Hhi : ((v - 20) / 10 < inject_Z 2147483619)%Q)
        by (apply Qlt_shift_div_r; qlra).
      destruct (to_int_floor _ 0 2147483619 Hlo Hhi) as [-> Hk];
        [lia | unfold INT_MAX; lia |].
      cbn [mbind res_bind]. rewrite sint_id by (unfold INT_MIN, INT_MAX; lia).
      f_equal. destruct (Z.gtb_spec (29 + Qfloor ((v - 20) / 10)) 199); lia.
Qed.

(** The values of the specification's example, and the percent-slower
    values computed from its runs, in both arithmetics. *)
Lemma hist_idx_examples :
  map (fun v => @hist_idx float binary64 (of_Z v) BUCKETS) [0; 5; 10; 200]
    = [Ok 0; Ok 14; Ok 19; Ok 47] /\
  map (fun v => @hist_idx xreal exact (of_Z v) BUCKETS) [0; 5; 10; 200]
    = [Ok 0; Ok 14; Ok 19; Ok 47] /\
  map (fun t => @hist_idx float binary64 (pct_over t 100) BUCKETS)
      [100; 105; 110; 300]
    = [Ok 0; Ok 14; Ok 19; Ok 47] /\
  map (fun t => @hist_idx xreal exact (pct_over t 100) BUCKETS)
      [100; 105; 110; 300]
    = [Ok 0; Ok 14; Ok 19; Ok 47].
Proof. repeat split; vm_compute; reflexivity. Qed.

(** C1, at the value 21474836300 (the percent-slower value of a run of
    214748364 us beside one of 1 us): the index is not clamped to 199.
    [29 + (int)((value - 20) / 10)] is 29 + 2147483628, which leaves the
    range of [int] and wraps to -2147483639, below the clamp; from
    21474836500 on the conversion to [int] itself is undefined.  The rule of
    the claim holds below 21474836210 ([hist_idx_spec_bucket],
    [hist_idx_examples]). *)
Theorem hist_idx_huge_not_clamped :
  @hist_idx float binary64 (of_Z 21474836300) BUCKETS = Ok (-2147483639) /\
  @hist_idx xreal exact (of_Z 21474836300) BUCKETS = Ok (-2147483639) /\
  @hist_idx float binary64 (pct_over 214748364 1) BUCKETS = Ok (-2147483639) /\
  @hist_idx float binary64 (of_Z 21474836500) BUCKETS = Undef Conversion /\
  @hist_idx xreal exact (of_Z 21474836500) BUCKETS = Undef Conversion.
Proof. repeat split; vm_compute; reflexivity. Qed.

(** ** Index to value and back *)

Lemma inverts_all :
  forallb (@inverts float binary64) (seqZ 0 200) = true /\
  forallb (@inverts xreal exact) (seqZ 0 200) = true.
Proof. split; vm_compute; reflexivity. Qed.

Lemma inverts_at {D : Type} `{Double D} (i : Z) :
  forallb inverts (seqZ 0 200) = true -> 0 <= i <= 199 ->
  hist_idx (hist_val i) BUCKETS = Ok i.
Proof.
  intros Hall Hi. rewrite forallb_forall in Hall.
  assert (Hin : In i (seqZ 0 200)).
  { apply list_elem_of_In, elem_of_seqZ. lia. }
  specialize (Hall i Hin). unfold inverts in Hall.
  destruct (hist_idx (hist_val i) BUCKETS) as [j | |]; try discriminate.
  apply Z.eqb_eq in Hall. now subst.
Qed.

(** C2: for every index i in [0,199], [hist_val i] put back through
    [hist_idx] gives an index j <= i of the same step-size band as i, and j
    is i itself; on the IEEE doubles and in exact arithmetic alike. *)
Theorem hist_val_inverts_hist_idx (i : Z) :
  0 <= i <= 199 ->
  (exists j, @hist_idx float binary64 (hist_val i) BUCKETS = Ok j /\
             j <= i /\ band_of j = band_of i /\ j = i) /\
  (exists j, @hist_idx xreal exact (hist_val i) BUCKETS = Ok j /\
             j <= i /\ band_of j = band_of i /\ j = i).
Proof.
  intros Hi. destruct inverts_all as [Hf Hx].
  split; exists i; (split; [now apply inverts_at |]); repeat split; lia.
Qed.

Lemma hist_val_inverts_hist_idx_witness :
  (exists j, @hist_idx float binary64 (hist_val 7) BUCKETS = Ok j /\
             j <= 7 /\ band_of j = band_of 7 /\ j = 7) /\
  (exists j, @hist_idx xreal exact (hist_val 7) BUCKETS = Ok j /\
             j <= 7 /\ band_of j = band_of 7 /\ j = 7).
Proof. apply (hist_val_inverts_hist_idx 7). lia. Defined.

(** ** Histogram conservation *)

Lemma Zsum_cons (x : Z) (l : list Z) : Zsum (x :: l) = x + Zsum l.
Proof. reflexivity. Qed.

Lemma Zsum_insert (l : list Z) (n : nat) (c x : Z) :
  l !! n = Some c -> Zsum (<[n := x]> l) = Zsum l - c + x.
Proof.
  revert n. induction l as [| y l IH]; intros [| n] Hn; try discriminate.
  - injection Hn as ->. change (<[0%nat := x]> (c :: l)) with (x :: l).
    rewrite !Zsum_cons. lia.
  - change (<[S n := x]> (y :: l)) with (y :: <[n := x]> l).
    rewrite !Zsum_cons, (IH n Hn). lia.
Qed.

Lemma Zsum_nonneg (l : list Z) : Forall (Z.le 0) l -> 0 <= Zsum l.
Proof.
  induction 1 as [| y l Hy Hl IH]; [reflexivity |].
  rewrite Zsum_cons. lia.
Qed.

Lemma Zsum_bounds_elem (l : list Z) (n : nat) (c : Z) :
  Forall (Z.le 0) l -> l !! n = Some c -> 0 <= c <= Zsum l.
Proof.
  intros Hl. revert n. induction Hl as [| y l Hy Hl IH]; intros [| n] Hn;
    try discriminate; rewrite Zsum_cons.
  - injection Hn as ->. pose proof (Zsum_nonneg l Hl). lia.
  - specialize (IH n Hn). lia.
Qed.

Lemma Zsum_replicate_0 (n : nat) : Zsum (replicate n 0) = 0.
Proof.
  induction n as [| n IH]; [reflexivity |].
  change (replicate (S n) 0) with (0 :: replicate n 0).
  now rewrite Zsum_cons, IH.
Qed.

Lemma rd_Ok (a : list Z) (i x : Z) :
  rd a i = Ok x -> 0 <= i /\ a !! Z.to_nat i = Some x.
Proof.
  unfold rd. destruct (Z.ltb_spec i 0); [discriminate |].
  destruct (a !! Z.to_nat i); [| discriminate]. now intros [= ->].
Qed.

Section Conservation.
Context {D : Type} `{Double D}.

Lemma hist_init_inv : hist_inv hist_init 0.
Proof.
  unfold hist_inv, hist_init. cbn [hist].
  rewrite length_replicate, Zsum_replicate_0. repeat split.
  apply Forall_replicate. lia.
Qed.

Lemma hist_step_inv (fastest : Z) (st st' : hist_state) (t n : Z) :
  hist_inv st n -> n < INT_MAX ->
  hist_step fastest st t = Ok st' -> hist_inv st' (n + 1).
Proof.
  intros (Hlen & Hpos & Hsum) Hn. unfold hist_step.
  destruct (hist_idx (pct_over t fastest) BUCKETS) as [idx | |];
    cbn [mbind res_bind]; try discriminate.
  destruct (idx <? 0); [discriminate |].
  destruct (rd (hist st) idx) as [c | |] eqn:Hrd;
    cbn [mbind res_bind]; try discriminate.
  intros [= <-]. cbn [hist].
  apply rd_Ok in Hrd as [Hidx Hc].
  pose proof (Zsum_bounds_elem _ _ _ Hpos Hc) as Hcb.
  rewrite sint_id by (unfold INT_MIN; lia).
  unfold hist_inv. cbn [hist]. repeat split.
  - now rewrite length_insert.
  - apply Forall_insert; [assumption | lia].
  - rewrite (Zsum_insert _ _ c) by assumption. lia.
Qed.

Lemma hist_pass_inv (fastest : Z) (l : list Z) :
  forall (st st' : hist_state) (n : Z),
    hist_inv st n -> n + Z.of_nat (length l) <= INT_MAX ->
    hist_pass fastest l st = Ok st' ->
    hist_inv st' (n + Z.of_nat (length l)).
Proof.
  induction l as [| t l IH]; intros st st' n Hinv Hn; cbn [hist_pass].
  - intros [= <-]. cbn. now rewrite Z.add_0_r.
  - destruct (hist_step fastest st t) as [st1 | |] eqn:Hstep;
      cbn [mbind res_bind]; try discriminate.
    intros Hpass. cbn [length] in *.
    apply (hist_step_inv _ _ _ _ _ Hinv) in Hstep; [| lia].
    replace (n + Z.of_nat (S (length l)))
      with (n + 1 + Z.of_nat (length l)) by lia.
    apply (IH st1); [assumption | lia | assumption].
Qed.

(** C3: after the histogram pass over the completed runs (their number
    is an [int]), the 200 bucket counts add up to the number of runs. *)
Theorem hist_counts_sum_to_runs (fastest : Z) (runs_us : list Z)
    (hs : hist_state) :
  Z.of_nat (length runs_us) <= INT_MAX ->
  hist_pass fastest runs_us hist_init = Ok hs ->
  length (hist hs) = 200%nat /\
  Zsum (hist hs) = Z.of_nat (length runs_us).
Proof.
  intros Hlen Hpass.
  destruct (hist_pass_inv fastest runs_us hist_init hs 0 hist_init_inv)
    as (H200 & _ & Hsum); [lia | assumption |].
  split; [assumption | now rewrite Hsum].
Qed.

End Conservation.

Lemma hist_counts_sum_to_runs_witness :
  length (hist example_hist) = 200%nat /\
  Zsum (hist example_hist) = Z.of_nat (length example_runs).
Proof.
  apply (hist_counts_sum_to_runs (D := float) 100 example_runs example_hist).
  - unfold INT_MAX. cbn. lia.
  - vm_compute. reflexivity.
Defined.

(** *** Percent slower and the rule of the buckets, in exact arithmetic *)

Lemma Qzero_inject_Z (z : Z) : z <> 0 -> Qzero (inject_Z z) = false.
Proof.
  intros Hz. unfold Qzero. destruct (Qeq_bool (inject_Z z) 0) eqn:E;
    [| reflexivity].
  apply Qeq_bool_iff in E. unfold Qeq in E. cbn in E. lia.
Qed.

Lemma pct_over_exact (t f : Z) :
  f <> 0 ->
  @pct_over xreal exact t f = Fin (100 * (inject_Z t / inject_Z f - 1)).
Proof.
  intros Hf. unfold pct_over.
  cbn [dmul dsub ddiv of_Z exact xdiv]. now rewrite (Qzero_inject_Z f Hf).
Qed.

Lemma spec_bucket_range (v : Q) : (0 <= v)%Q -> 0 <= spec_bucket v <= 199.
Proof.
  intros Hv. unfold spec_bucket.
  destruct (Qltb v 1) eqn:E1.
  - assert (0 <= Qfloor (10 * v)) by (apply Qfloor_ge_Z; qlra). lia.
  - apply Qltb_false in E1. destruct (Qltb v 20) eqn:E2.
    + assert (0 <= Qfloor (v - 1)) by (apply Qfloor_ge_Z; qlra). lia.
    + apply Qltb_false in E2.
      assert (0 <= Qfloor ((v - 20) / 10)).
      { apply Qfloor_ge_Z. apply Qle_shift_div_l; qlra. }
      lia.
Qed.

(** ** The fastest run *)

Lemma ull_range (z : Z) : 0 <= ull z <= ULLONG_MAX.
Proof.
  unfold ull, ULLONG_MAX. pose proof (Z.mod_pos_bound z (2 ^ 64)). lia.
Qed.

Section Fastest.
Context {D : Type} `{Double D}.

Lemma run_init_inv : run_inv 0 run_init.
Proof. repeat split; [constructor | now left]. Qed.

Lemma run_body_inv (i : nat) (st : run_state D) (ts : timeval * timeval) :
  run_inv i st -> run_inv (S i) (run_body st ts).
Proof.
  intros (Hlen & Hall & Hmin). unfold run_inv, run_body.
  cbn [runs_us fastest_time_us]. pose proof (ull_range
    (1000000 * (tv_sec ts.2 - tv_sec ts.1)
     + (tv_usec ts.2 - tv_usec ts.1) ÷ 1)) as Ht.
  fold (elapsed_us ts) in Ht. set (t := elapsed_us ts) in *.
  split; [rewrite length_app; cbn; lia |].
  destruct (Z.ltb_spec t (fastest_time_us st)) as [Hlt | Hge].
  - split.
    + apply Forall_app. split.
      * eapply Forall_impl; [exact Hall |]. cbn. lia.
      * repeat constructor; lia.
    + right. apply elem_of_app. right. now apply list_elem_of_singleton.
  - split.
    + apply Forall_app. split; [assumption |].
      repeat constructor; try lia.
      destruct Hmin as [-> | Hin]; [lia |].
      rewrite Forall_forall in Hall. apply (Hall _ Hin).
    + destruct Hmin as [Hm | Hin]; [| right; apply elem_of_app; now left].
      right. apply elem_of_app. right. apply list_elem_of_singleton.
      unfold ULLONG_MAX in *. lia.
Qed.

Lemma run_loop_inv (fuel : nat) (max_runs : Z) (mainrun : nat -> bool)
    (clock : nat -> timeval * timeval) :
  forall (i : nat) (st : run_state D),
    run_inv i st ->
    run_inv (run_loop fuel max_runs mainrun clock i st).1
            (run_loop fuel max_runs mainrun clock i st).2.
Proof.
  induction fuel as [| fuel IH]; intros i st Hinv; cbn [run_loop].
  - assumption.
  - destruct (mainrun i && (Z.of_nat i <? max_runs)); [| assumption].
    apply IH. now apply run_body_inv.
Qed.

(** The loop never goes past [max_runs]: the fuel is exact. *)
Lemma run_loop_count (fuel : nat) (max_runs : Z) (mainrun : nat -> bool)
    (clock : nat -> timeval * timeval) :
  forall (i : nat) (st : run_state D),
    let i' := (run_loop fuel max_runs mainrun clock i st).1 in
    (i <= i')%nat /\ (Z.of_nat i' <= Z.max (Z.of_nat i) max_runs).
Proof.
  induction fuel as [| fuel IH]; intros i st; cbn [run_loop].
  - cbn. lia.
  - destruct (mainrun i) ; cbn [andb]; [| cbn; lia].
    destruct (Z.ltb_spec (Z.of_nat i) max_runs); [| cbn; lia].
    specialize (IH (S i) (run_body st (clock i))). cbn zeta in IH. lia.
Qed.

(** With fuel [max_runs] the loop stops only where the source does:
    the flag is down or [i] has reached [max_runs]. *)
Lemma run_loop_stops (max_runs : Z) (mainrun : nat -> bool)
    (clock : nat -> timeval * timeval) :
  forall (fuel i : nat) (st : run_state D),
    Z.of_nat (i + fuel) >= max_runs ->
    let i' := (run_loop fuel max_runs mainrun clock i st).1 in
    mainrun i' && (Z.of_nat i' <? max_runs) = false.
Proof.
  induction fuel as [| fuel IH]; intros i st Hfuel; cbn [run_loop].
  - cbn. destruct (Z.ltb_spec (Z.of_nat i) max_runs); [lia |].
    apply andb_false_r.
  - destruct (mainrun i && (Z.of_nat i <? max_runs)) eqn:E; [| exact E].
    apply IH. lia.
Qed.

(** The fastest time is the minimum over the completed runs. *)
Lemma fastest_is_minimum (max_runs : Z) (mainrun : nat -> bool)
    (clock : nat -> timeval * timeval) :
  let r := run_loop (Z.to_nat max_runs) max_runs mainrun clock 0 run_init in
  length (runs_us r.2) = r.1 /\
  Forall (fun t => fastest_time_us r.2 <= t) (runs_us r.2) /\
  (r.1 <> 0%nat -> fastest_time_us r.2 ∈ runs_us r.2).
Proof.
  cbn zeta.
  destruct (run_loop_inv (Z.to_nat max_runs) max_runs mainrun clock
              0 run_init run_init_inv) as (Hlen & Hall & Hmin).
  split; [assumption |]. split.
  - eapply Forall_impl; [exact Hall |]. cbn. lia.
  - intros Hne. destruct Hmin as [Hm | Hin]; [| assumption].
    destruct (runs_us _) as [| t l] eqn:E; [cbn in Hlen; lia |].
    apply Forall_cons in Hall as [Ht _]. rewrite Hm in Ht.
    replace (fastest_time_us _) with t by lia. now left.
Qed.

End Fastest.

(** ** Percent slower than the fastest *)

(** In exact arithmetic a run that is not faster than a positive fastest
    time is slower by a finite percentage that is not negative. *)
Lemma pct_over_nonneg (t f : Z) :
  0 < f -> f <= t ->
  exists v, @pct_over xreal exact t f = Fin v /\ (0 <= v)%Q /\
            dleb (of_Z 0) (@pct_over xreal exact t f) = true.
Proof.
  intros Hf Ht. rewrite pct_over_exact by lia.
  eexists. split; [reflexivity |].
  assert (Hv : (0 <= 100 * (inject_Z t / inject_Z f - 1))%Q).
  { assert (Hfq : (0 < inject_Z f)%Q).
    { change 0%Q with (inject_Z 0). now rewrite <- Zlt_Qlt. }
    assert (H1 : (1 <= inject_Z t / inject_Z f)%Q).
    { apply Qle_shift_div_l; [assumption |]. rewrite Qmult_1_l.
      now rewrite <- Zle_Qle. }
    set (x := (inject_Z t / inject_Z f)%Q) in *. clearbody x. lra. }
  split; [exact Hv |]. cbn [dleb of_Z exact xleb].
  now apply Qle_bool_iff.
Qed.

(** Below 21474836210 percent the index lies between 0 and 199. *)
Lemma hist_idx_in_range (v : Q) (idx : Z) :
  (0 <= v)%Q -> (v < 21474836210)%Q ->
  @hist_idx xreal exact (Fin v) BUCKETS = Ok idx -> 0 <= idx <= 199.
Proof.
  intros H0 Hmax. rewrite (hist_idx_spec_bucket v H0 Hmax). intros [= <-].
  now apply spec_bucket_range.
Qed.

(** C9, where the code leaves the claim.  (1) With a run of 1 us and a run
    of 214748364 us the percent-slower value is 21474836300, not negative,
    yet the index computed is -2147483639 and [main] leaves through its
    negative-index branch (exit code 1).  (2) With a single run of 0 us the
    fastest time is 0 and the percent-slower value is NaN, which is not
    >= 0; its conversion to [int] is undefined.  For a positive fastest
    time the value is not negative ([fastest_is_minimum],
    [pct_over_nonneg]) and, below 21474836210, neither is the index
    ([hist_idx_in_range]). *)
Theorem negative_idx_branch_reached :
  let w := world_of 100000 2 300000000 100000 2 [1; 214748364] in
  let w0 := world_of 100000 1 300000000 100000 1 [0] in
  (@hist_pass float binary64 1 [1; 214748364] hist_init = Exit 1 /\
   @main float binary64 w = Exit 1 /\
   @hist_pass xreal exact 1 [1; 214748364] hist_init = Exit 1 /\
   @main xreal exact w = Exit 1) /\
  (dleb (of_Z 0) (@pct_over float binary64 0 0) = false /\
   @main float binary64 w0 = Undef Conversion /\
   dleb (of_Z 0) (@pct_over xreal exact 0 0) = false /\
   @main xreal exact w0 = Undef Conversion).
Proof. cbv zeta. repeat split; vm_compute; reflexivity. Qed.

(** ** No run at all *)

(** With no run the loop leaves the state as it was set up. *)
Lemma run_loop_no_run {D : Type} `{Double D} (max_runs : Z)
    (mainrun : nat -> bool) (clock : nat -> timeval * timeval) :
  max_runs <= 0 \/ mainrun 0%nat = false ->
  run_loop (Z.to_nat max_runs) max_runs mainrun clock 0 run_init
  = (0%nat, run_init).
Proof.
  intros Hno. destruct (Z.to_nat max_runs) as [| fuel] eqn:E;
    [reflexivity |]. cbn [run_loop].
  destruct Hno as [Hle | ->]; [lia | reflexivity].
Qed.

(** Whatever the calibration found, the post-processing of no run is not
    turned away: the histogram pass is made (over nothing), and the first
    row of the histogram asks [myceil] for 50 * 0 / 0. *)
Lemma post_process_no_run (iter_count : Z) :
  @hist_pass float binary64 ULLONG_MAX [] hist_init = Ok hist_init /\
  @post_process float binary64 iter_count 0 run_init = Undef Conversion /\
  @post_process xreal exact iter_count 0 run_init = Undef Conversion.
Proof. repeat split. Qed.

Lemma main_no_run (w : world) (iter_count : Z) :
  target_us w <> 0 -> malloc_ok w = true -> working_set w = Ok tt ->
  memory (given w) = false ->
  find_count (target_us w) (100 * 1000) 5 (calib_worker w) (calib_clock w)
    = Ok iter_count ->
  max_runs w <= 0 \/ mainrun w 0%nat = false ->
  @main float binary64 w = Undef Conversion /\
  @main xreal exact w = Undef Conversion.
Proof.
  intros Ht Hm Hws Hmem Hc Hno. unfold main, workload_reads.
  destruct (Z.eqb_spec (target_us w) 0); [contradiction |].
  rewrite Hm, Hws, Hmem, Hc. cbn [negb mbind res_bind].
  destruct (created (calib_worker w)); cbn [mbind res_bind];
    rewrite !run_loop_no_run by assumption;
  split; apply post_process_no_run.
Qed.

(** C7, at zero runs: nothing rejects the empty run set.  With a maximum
    of 0 runs (p1bench 100 0), or with the stop flag down before the first
    run, [main] goes into the post-processing, where the first histogram
    row computes 50 * 0 / 0 and converts the NaN to [int]: undefined, and
    no exit. *)
Theorem zero_runs_not_rejected :
  let w := world_of 100000 0 300000000 100000 0 [] in
  let w' := world_of 100000 100 300000000 100000 0 [] in
  @main float binary64 w = Undef Conversion /\
  @main xreal exact w = Undef Conversion /\
  @main float binary64 w' = Undef Conversion /\
  @main xreal exact w' = Undef Conversion.
Proof. cbv zeta. repeat split; vm_compute; reflexivity. Qed.

(** ** Percentiles *)

(** While [runs * p] fits [int], the index read for the [p]-th percentile
    is the floor of [runs * p / 100], less one: rank floor(runs * p / 100),
    counted from 1. *)
Lemma pct_index_rank (runs p : Z) :
  0 <= runs -> 0 <= p -> runs * p <= INT_MAX ->
  pct_index runs p = runs * p / 100 - 1.
Proof.
  intros Hr Hp Hmax. unfold pct_index.
  assert (0 <= runs * p) by lia.
  rewrite (sint_id (runs * p)) by (unfold INT_MIN; lia).
  rewrite Z.quot_div_nonneg by lia.
  assert (0 <= runs * p / 100 <= runs * p).
  { split; [apply Z.div_pos; lia | apply Z.div_le_upper_bound; lia]. }
  apply sint_id. unfold INT_MIN, INT_MAX in *. lia.
Qed.

Lemma last_index_in_bounds (runs : Z) :
  1 <= runs <= INT_MAX -> 0 <= sint (runs - 1) < runs.
Proof.
  intros Hr. rewrite sint_id; unfold INT_MIN, INT_MAX in *; lia.
Qed.

(** The gated percentiles read inside the array: each gate puts the rank
    at 1 or more. *)
Lemma gated_index_in_bounds (runs p gate : Z) :
  (p = 50 /\ gate = 3) \/ (p = 90 /\ gate = 10) \/ (p = 99 /\ gate = 100) ->
  gate <= runs -> runs * p <= INT_MAX ->
  0 <= pct_index runs p < runs.
Proof.
  intros Hp Hg Hmax. rewrite pct_index_rank by lia.
  assert (1 <= runs * p / 100) by (apply Z.div_le_lower_bound; lia).
  assert (runs * p / 100 <= runs) by (apply Z.div_le_upper_bound; lia).
  lia.
Qed.

(** The labels of the percentiles computed are those of
    [percentile_reads]. *)
Lemma percentiles_labels {D : Type} `{Double D} (sorted : list Z)
    (fastest : Z) (l : list (Z * Z)) (ps : list (Z * Z * D)) :
  percentiles sorted fastest l = Ok ps -> ps.*1.*1 = l.*1.
Proof.
  revert ps. induction l as [| [p i] l IH]; intros ps; cbn [percentiles].
  - now intros [= <-].
  - unfold percentile. cbn [fst snd].
    destruct (rd sorted i) as [x | |]; cbn [mbind res_bind]; try discriminate.
    destruct (percentiles sorted fastest l) as [rs | |];
      cbn [mbind res_bind]; try discriminate.
    intros [= <-]. cbn. f_equal. now apply IH.
Qed.

(** The gates of the percentile line: of the percentiles [main] sets out
    to print for n runs, the 50th is one exactly when n >= 3, the 90th
    exactly when n >= 10, the 99th exactly when n >= 100, and the 100th
    always; 5 runs give the 50th and the 100th only, 100 runs give all
    four. *)
Lemma percentile_gates (n : Z) :
  1 <= n ->
  (50 ∈ reported n <-> 3 <= n) /\
  (90 ∈ reported n <-> 10 <= n) /\
  (99 ∈ reported n <-> 100 <= n) /\
  100 ∈ reported n /\
  reported 5 = [50; 100] /\
  reported 100 = [50; 90; 99; 100].
Proof.
  intros _. unfold reported, percentile_reads.
  destruct (Z.geb_spec n 3), (Z.geb_spec n 10), (Z.geb_spec n 100);
    cbn [app fmap list_fmap fst];
    repeat split; intros; try lia;
    repeat match goal with
           | |- _ ∈ _ => apply list_elem_of_In; cbn; tauto
           | Hin : _ ∈ _ |- _ =>
               apply list_elem_of_In in Hin; cbn in Hin;
               repeat destruct Hin as [Hin | Hin]; try discriminate;
               try contradiction
           end.
Qed.

Lemma percentile_gates_witness :
  (50 ∈ reported 5 <-> 3 <= 5) /\
  (90 ∈ reported 5 <-> 10 <= 5) /\
  (99 ∈ reported 5 <-> 100 <= 5) /\
  100 ∈ reported 5 /\
  reported 5 = [50; 100] /\
  reported 100 = [50; 90; 99; 100].
Proof. apply (percentile_gates 5). lia. Defined.

(** ** Absolute times and rates *)

(** After a single run the median is read at index -1. *)
Lemma summarize_one_run {D : Type} `{Double D}
    (t fastest slowest total iter_count : Z) :
  summarize [t] 1 fastest slowest total iter_count
  = Undef (OutOfBounds (-1)).
Proof. reflexivity. Qed.

(** From two runs on (and while [runs * 50] fits [int]) the median is read
    inside the array. *)
Lemma median_index_in_bounds (runs : Z) :
  2 <= runs -> runs * 50 <= INT_MAX -> 0 <= pct_index runs 50 < runs.
Proof.
  intros Hr Hmax. rewrite pct_index_rank by lia.
  assert (1 <= runs * 50 / 100) by (apply Z.div_le_lower_bound; lia).
  assert (runs * 50 / 100 <= runs) by (apply Z.div_le_upper_bound; lia).
  lia.
Qed.

(** C8, at one completed run (p1bench 100 1): the absolute-time summary
    reads the median at [runs_us[runs * 50 / 100 - 1]], which is
    [runs_us[-1]], outside the array; the percentile line gates that read
    by [runs >= 3], the summary does not.  The index [runs - 1] of the
    slowest run is inside for every count ([last_index_in_bounds]), the
    median's from two runs on ([median_index_in_bounds]). *)
Theorem median_read_out_of_bounds :
  let w := world_of 100000 1 300000000 100000 1 [100000] in
  pct_index 1 50 = -1 /\
  @main float binary64 w = Undef (OutOfBounds (-1)) /\
  @main xreal exact w = Undef (OutOfBounds (-1)).
Proof. cbv zeta. repeat split; vm_compute; reflexivity. Qed.

(** ** Sorting with [ullcmp] *)

(** [ullcmp] returns the difference itself while it fits [int]. *)
Lemma ullcmp_small (a b : Z) :
  0 <= a <= ULLONG_MAX -> 0 <= b <= ULLONG_MAX ->
  INT_MIN <= a - b <= INT_MAX -> ullcmp a b = a - b.
Proof.
  unfold ullcmp, ull, sint, ULLONG_MAX, INT_MIN, INT_MAX.
  change (2 ^ 64) with 18446744073709551616.
  change (2 ^ 32) with 4294967296. change (2 ^ 31) with 2147483648.
  intros Ha Hb Hd. Z.to_euclidean_division_equations. lia.
Qed.

Lemma qsort_insert_perm (compar : Z -> Z -> Z) (x : Z) (l : list Z) :
  qsort_insert compar x l ≡ₚ x :: l.
Proof.
  induction l as [| y l IH]; cbn [qsort_insert]; [reflexivity |].
  destruct (compar x y <=? 0); [reflexivity |].
  rewrite IH. apply perm_swap.
Qed.

Lemma qsort_perm (compar : Z -> Z -> Z) (l : list Z) : qsort compar l ≡ₚ l.
Proof.
  induction l as [| x l IH]; [reflexivity |].
  change (qsort compar (x :: l)) with (qsort_insert compar x (qsort compar l)).
  now rewrite qsort_insert_perm, IH.
Qed.

Lemma qsort_insert_HdRel (compar : Z -> Z -> Z) (x y : Z) (l : list Z) :
  y <= x -> HdRel Z.le y l -> HdRel Z.le y (qsort_insert compar x l).
Proof.
  intros Hyx Hl. destruct l as [| z l]; cbn [qsort_insert].
  - now constructor.
  - destruct (compar x z <=? 0); constructor; [assumption |].
    now apply HdRel_inv in Hl.
Qed.

Lemma qsort_insert_sorted (compar : Z -> Z -> Z) (x : Z) (l : list Z) :
  (forall y, y ∈ l -> compar x y <= 0 <-> x <= y) ->
  Sorted Z.le l -> Sorted Z.le (qsort_insert compar x l).
Proof.
  intros Hcmp Hl. induction Hl as [| y l Hl IH Hhd]; cbn [qsort_insert].
  - repeat constructor.
  - pose proof (Hcmp y (list_elem_of_here y l)) as Hy.
    destruct (Z.leb_spec (compar x y) 0) as [Hle | Hgt].
    + constructor; [now constructor |]. constructor. now apply Hy.
    + constructor.
      * apply IH. intros z Hz. apply Hcmp. now right.
      * apply qsort_insert_HdRel; [lia | assumption].
Qed.

(** Where the comparison function tells the order of the elements, [qsort]
    sorts them in ascending order. *)
Lemma qsort_sorted (compar : Z -> Z -> Z) (l : list Z) :
  (forall x y, x ∈ l -> y ∈ l -> compar x y <= 0 <-> x <= y) ->
  Sorted Z.le (qsort compar l).
Proof.
  induction l as [| x l IH]; intros Hcmp; [constructor |].
  change (qsort compar (x :: l)) with (qsort_insert compar x (qsort compar l)).
  apply qsort_insert_sorted.
  - intros y Hy. apply Hcmp; [now left |].
    right. now rewrite <- (qsort_perm compar l).
  - apply IH. intros y z Hy Hz. apply Hcmp; now right.
Qed.

(** [ullcmp] tells the order of times less than 2^31 us apart: then the
    sort of [main] is ascending. *)
Lemma qsort_ullcmp_sorted (l : list Z) :
  Forall (fun t => 0 <= t <= ULLONG_MAX) l ->
  (forall x y, x ∈ l -> y ∈ l -> x - y < 2 ^ 31) ->
  Sorted Z.le (qsort ullcmp l) /\ qsort ullcmp l ≡ₚ l.
Proof.
  intros Hl Hd. split; [| apply qsort_perm].
  apply qsort_sorted. intros x y Hx Hy. rewrite Forall_forall in Hl.
  pose proof (Hd x y Hx Hy). pose proof (Hd y x Hy Hx).
  rewrite ullcmp_small; [lia | now apply Hl | now apply Hl |].
  unfold INT_MIN, INT_MAX. lia.
Qed.

(** Any arrangement of 3000000000 and 1000 that [ullcmp] calls ordered has
    the larger first: the outcome below does not depend on the algorithm
    of [qsort]. *)
Lemma ordered_by_ullcmp_descends (l : list Z) :
  l ≡ₚ [3000000000; 1000] -> Sorted (fun x y => ullcmp x y <= 0) l ->
  l = [3000000000; 1000].
Proof.
  intros Hp Hs.
  assert (Hlen : length l = 2%nat) by now rewrite Hp.
  destruct l as [| a [| b [| c l]]]; try discriminate.
  apply Sorted_inv in Hs as [_ Hab]. apply HdRel_inv in Hab.
  apply Permutation_length_2 in Hp as [[-> ->] | [-> ->]]; [reflexivity |].
  vm_compute in Hab. now destruct Hab.
Qed.

(** C4, at a run of 3000000000 us and a run of 1000 us: [ullcmp] returns
    [a - b] cut to [int], here 2999999000 cut to -1294968296, so it calls
    3000000000 the smaller; the array stays [3000000000; 1000], which is
    not ascending, and the 100th percentile reads the 1000.  The sort is
    ascending while the times are less than 2^31 us apart
    ([qsort_ullcmp_sorted]); the index read is the rank
    floor(runs * p / 100), less one ([pct_index_rank]). *)
Theorem qsort_ullcmp_not_ascending :
  let w := world_of 100000 2 300000000 100000 2 [3000000000; 1000] in
  ullcmp 3000000000 1000 = -1294968296 /\
  ullcmp 1000 3000000000 = 1294968296 /\
  qsort ullcmp [3000000000; 1000] = [3000000000; 1000] /\
  ~ Sorted Z.le (qsort ullcmp [3000000000; 1000]) /\
  sorted_and_read (@main float binary64 w)
    = Some ([3000000000; 1000], [(100, 1000)]).
Proof.
  cbv zeta. repeat split; try (vm_compute; reflexivity).
  change (qsort ullcmp [3000000000; 1000]) with [3000000000; 1000].
  intros Hs. apply Sorted_inv in Hs as [_ Hhd]. apply HdRel_inv in Hhd. lia.
Qed.

(** ** Calibration *)

(** The best time of the trials is below the time of each trial. *)
Lemma trials_is_min (clock : nat -> timeval * timeval) (n : nat) :
  forall (i : nat) (best : Z),
    trials n i clock best <= best /\
    forall j, (i <= j < i + n)%nat ->
              trials n i clock best <= elapsed_us (clock j).
Proof.
  induction n as [| n IH]; intros i best; cbn [trials].
  - split; [lia | intros j Hj; lia].
  - set (t := elapsed_us (clock i)).
    destruct (IH (S i) (if t <? best then t else best)) as [Hle Hall].
    destruct (Z.ltb_spec t best); split; try lia.
    + intros j Hj. destruct (decide (j = i)) as [-> | Hne]; [fold t; lia |].
      apply Hall. lia.
    + intros j Hj. destruct (decide (j = i)) as [-> | Hne]; [fold t; lia |].
      apply Hall. lia.
Qed.

(** C6, at a target of 10^11 us (p1bench 100000000): the calibration
    probe reaches the count K = 300000000 and the five timed trials take
    120000, 100000, 110000, 105000 and 130000 us, so the best time is
    T = 100000 > 0 and the claim gives K * target_us / T =
    300000000000000.  [find_count] forms the product [iter_count *
    target_us] in [unsigned long long]: 3 * 10^19 is above 2^64, the
    product wraps, and the count returned is 115532559262904. *)
Theorem find_count_wraps :
  let K := 300000000 in
  let target_us := 100000000000 in
  let clock := fun i : nat =>
    tick (default 0 ([120000; 100000; 110000; 105000; 130000] !! i)) in
  let T := trials 5 0 clock ULLONG_MAX in
  loop calib_example 0 = K /\ T = 100000 /\
  K * target_us / T = 300000000000000 /\
  find_count target_us (100 * 1000) 5 calib_example clock
    = Ok 115532559262904.
Proof. cbv zeta. repeat split; vm_compute; reflexivity. Qed.

(** ** The memory workload *)

Section MemoryBounds.
Variables g_memsize g_stride : Z.
Hypothesis memsize_nonneg : 0 <= g_memsize.
Hypothesis stride_nonneg : 0 <= g_stride.

Lemma mem_next_range (memp : Z) :
  0 <= memp <= g_memsize ->
  0 <= mem_next g_memsize g_stride memp <= g_memsize.
Proof.
  intros Hm. unfold mem_next.
  destruct (Z.gtb_spec (memp + g_stride) g_memsize); lia.
Qed.

(** Every offset read is at least 0 and at most the size of the working
    set: the size itself is not excluded. *)
Lemma mem_reads_range (n : nat) :
  forall memp, 0 <= memp <= g_memsize ->
    Forall (fun off => 0 <= off <= g_memsize)
      (mem_reads g_memsize g_stride n memp).
Proof.
  induction n as [| n IH]; intros memp Hm; cbn [mem_reads]; constructor.
  - assumption.
  - apply IH. now apply mem_next_range.
Qed.

(** Where the stride divides the size, [k] strides long, the turn after the
    [k]-th reads at the size itself: one byte past the working set. *)
Lemma mem_reads_reach_end (k : Z) (n : nat) :
  g_memsize = k * g_stride ->
  forall j, 0 <= j -> j + Z.of_nat n <= k + 1 ->
    mem_reads g_memsize g_stride n (j * g_stride)
    = map (fun i => (j + Z.of_nat i) * g_stride) (seq 0 n).
Proof.
  intros Hk. induction n as [| n IH]; intros j Hj Hn; [reflexivity |].
  cbn [mem_reads seq map]. f_equal; [f_equal; lia |].
  destruct n as [| n]; [reflexivity |].
  assert (Hnext : mem_next g_memsize g_stride (j * g_stride)
                  = (j + 1) * g_stride).
  { unfold mem_next.
    destruct (Z.gtb_spec (j * g_stride + g_stride) g_memsize); nia. }
  rewrite Hnext, IH by lia. rewrite <- seq_shift, map_map.
  apply map_ext. intros i. f_equal. lia.
Qed.

End MemoryBounds.

(** C10, at a working set of 1 Mbyte (p1bench -m 1) with the stride of 64
    that [main] sets: the 16385th turn of the loop reads at offset 1048576,
    the size of the working set, one byte past its end; in [memrun] and in
    [memtest] alike.  The test [memp > (g_mem + g_memsize)] lets the offset
    equal to the size through.  Every offset read is between 0 and the size
    inclusive ([mem_reads_range]). *)
Theorem memory_scan_reads_past_end :
  let g_memsize := 1 * 1024 * 1024 in
  let g_stride := 64 in
  last (memrun g_memsize g_stride 16385).2 = Some g_memsize /\
  last (memtest g_memsize g_stride (Z.to_nat 16385) 0).2 = Some g_memsize /\
  ~ Forall (fun off => 0 <= off < g_memsize)
      (memrun g_memsize g_stride 16385).2.
Proof.
  cbv zeta.
  assert (Hrun : last (memrun (1 * 1024 * 1024) 64 16385).2
                 = Some (1 * 1024 * 1024)) by (vm_compute; reflexivity).
  split; [exact Hrun |]. split; [vm_compute; reflexivity |].
  intros Hall. apply last_Some_elem_of in Hrun.
  apply (proj1 (Forall_forall _ _)) with (x := 1 * 1024 * 1024) in Hall;
    [lia | exact Hrun].
Qed.

(** ** Whole reports *)

Lemma rd_in_bounds (a : list Z) (i : Z) :
  0 <= i < Z.of_nat (length a) -> exists x, rd a i = Ok x.
Proof.
  intros Hi. unfold rd. destruct (Z.ltb_spec i 0); [lia |].
  destruct (lookup_lt_is_Some_2 a (Z.to_nat i)) as [x ->]; [lia | eauto].
Qed.

Lemma percentiles_in_bounds {D : Type} `{Double D} (sorted : list Z)
    (fastest : Z) (l : list (Z * Z)) :
  Forall (fun pi => 0 <= pi.2 < Z.of_nat (length sorted)) l ->
  exists ps, percentiles sorted fastest l = Ok ps.
Proof.
  induction 1 as [| [p i] l Hi Hl [ps IH]]; cbn [percentiles]; [eauto |].
  unfold percentile. cbn [fst snd] in *.
  destruct (rd_in_bounds sorted i Hi) as [x ->]. rewrite IH.
  cbn [mbind res_bind]. eauto.
Qed.

(** The percentile line is defined for every count of runs from 1 up to
    21691754 (where [runs * 99] still fits [int]), and carries the
    percentiles of [reported]. *)
Lemma percentiles_defined {D : Type} `{Double D} (sorted : list Z)
    (fastest n : Z) :
  Z.of_nat (length sorted) = n -> 1 <= n -> n * 99 <= INT_MAX ->
  exists ps, percentiles sorted fastest (percentile_reads n) = Ok ps /\
             ps.*1.*1 = reported n.
Proof.
  intros Hlen Hn Hmax.
  destruct (percentiles_in_bounds sorted fastest (percentile_reads n))
    as [ps Hps].
  - rewrite Hlen. unfold percentile_reads.
    repeat apply Forall_app_2;
      repeat match goal with
             | |- Forall _ (if ?c then _ else _) => destruct c eqn:?
             | |- Forall _ [] => constructor
             | |- Forall _ [_] => constructor; [cbn [snd] | constructor]
             end.
    + apply (gated_index_in_bounds n 50 3); [tauto | lia | lia].
    + apply (gated_index_in_bounds n 90 10); [tauto | lia | lia].
    + apply (gated_index_in_bounds n 99 100); [tauto | lia | lia].
    + apply last_index_in_bounds. lia.
  - exists ps. split; [assumption |]. now apply percentiles_labels in Hps.
Qed.

Lemma bind_Ok {A B : Type} (m : res A) (k : A -> res B) (b : B) :
  m ≫= k = Ok b -> exists a, m = Ok a /\ k a = Ok b.
Proof. destruct m as [a | |]; cbn; [eauto | discriminate | discriminate]. Qed.

Lemma main_Ok_conservation {D : Type} `{Double D} (w : world)
    (rep : report D) :
  max_runs w <= INT_MAX -> main w = Ok rep ->
  length (hist (rep_hist rep)) = 200%nat /\
  Zsum (hist (rep_hist rep)) = rep_runs rep.
Proof.
  intros Hmax. unfold main.
  destruct (target_us w =? 0); [discriminate |].
  destruct (negb (malloc_ok w)); [discriminate |].
  intros Hm. apply bind_Ok in Hm as (_ & _ & Hm).
  apply bind_Ok in Hm as (_ & _ & Hm).
  apply bind_Ok in Hm as (iter_count & _ & Hm).
  pose proof (run_loop_inv (Z.to_nat (max_runs w)) (max_runs w) (mainrun w)
                (run_clock w) 0 run_init run_init_inv) as (Hlen & _ & _).
  pose proof (run_loop_count (Z.to_nat (max_runs w)) (max_runs w)
                (mainrun w) (run_clock w) 0 run_init) as Hcount.
  cbn zeta in Hcount.
  destruct (run_loop _ _ _ _ _ _) as [i st]. cbn [fst snd] in *.
  apply bind_Ok in Hm as (_ & _ & Hm). unfold post_process in Hm.
  apply bind_Ok in Hm as (hs & Hpass & Hm).
  apply bind_Ok in Hm as (rows & _ & Hm).
  apply bind_Ok in Hm as (ps & _ & Hm).
  apply bind_Ok in Hm as (sm & _ & Hm).
  injection Hm as <-. cbn [rep_hist rep_runs].
  rewrite <- Hlen. apply (hist_pass_inv _ _ _ _ 0 hist_init_inv) in Hpass.
  - destruct Hpass as (H200 & _ & Hsum). split; [assumption | lia].
  - rewrite Hlen. unfold INT_MAX in *. lia.
Qed.

(** In every report [main] prints, the 200 bucket counts add up to the
    number of runs. *)
Lemma main_hist_conservation {D : Type} `{Double D} (w : world) :
  max_runs w <= INT_MAX ->
  match main w with
  | Ok rep => length (hist (rep_hist rep)) = 200%nat /\
              Zsum (hist (rep_hist rep)) = rep_runs rep
  | _ => True
  end.
Proof.
  intros Hmax. destruct (main w) as [rep | |] eqn:E; [| exact I | exact I].
  now apply (main_Ok_conservation w).
Qed.

Lemma main_hist_conservation_witness :
  match @main float binary64 example_world with
  | Ok rep => length (hist (rep_hist rep)) = 200%nat /\
              Zsum (hist (rep_hist rep)) = rep_runs rep
  | _ => True
  end.
Proof.
  apply (main_hist_conservation (D := float) example_world).
  unfold INT_MAX. cbn. lia.
Defined.

(** ** Further properties *)

Lemma pct_over_nonneg_witness :
  exists v, @pct_over xreal exact 105 100 = Fin v /\ (0 <= v)%Q /\
            dleb (of_Z 0) (@pct_over xreal exact 105 100) = true.
Proof. apply (pct_over_nonneg 105 100); lia. Defined.

Lemma qsort_ullcmp_sorted_witness :
  Sorted Z.le (qsort ullcmp [110; 300; 100; 105]) /\
  qsort ullcmp [110; 300; 100; 105] ≡ₚ [110; 300; 100; 105].
Proof.
  apply (qsort_ullcmp_sorted [110; 300; 100; 105]).
  - unfold ULLONG_MAX. repeat constructor; lia.
  - intros x y Hx Hy. rewrite !elem_of_cons, elem_of_nil in Hx, Hy. lia.
Defined.

Lemma mem_reads_range_witness :
  Forall (fun off => 0 <= off <= 128) (mem_reads 128 64 5 0).
Proof. apply (mem_reads_range 128 64); lia. Defined.

Lemma main_no_run_witness :
  @main float binary64 (world_of 100000 0 300000000 100000 0 [])
    = Undef Conversion /\
  @main xreal exact (world_of 100000 0 300000000 100000 0 [])
    = Undef Conversion.
Proof.
  apply (main_no_run (world_of 100000 0 300000000 100000 0 []) 300000000).
  - discriminate.
  - reflexivity.
  - reflexivity.
  - reflexivity.
  - vm_compute. reflexivity.
  - left. cbn. lia.
Defined.

Lemma percentiles_defined_witness :
  exists ps,
    @percentiles float binary64 example_runs 100 (percentile_reads 4) = Ok ps /\
    ps.*1.*1 = reported 4.
Proof.
  apply (percentiles_defined (D := float) example_runs 100 4).
  - reflexivity.
  - lia.
  - unfold INT_MAX. lia.
Defined.

Lemma trials_is_min_witness :
  trials 5 0 (fun _ => tick 100000) ULLONG_MAX <= ULLONG_MAX /\
  forall j, (0 <= j < 0 + 5)%nat ->
            trials 5 0 (fun _ => tick 100000) ULLONG_MAX
            <= elapsed_us (tick 100000).
Proof. apply (trials_is_min (fun _ => tick 100000) 5 0%nat ULLONG_MAX). Defined.

(** Each percentile printed for [n] runs (up to 21691754) reads index
    floor(n * p / 100) - 1 of the sorted array, which is inside it: the
    value of rank floor(n * p / 100), counted from 1. *)
Lemma percentile_reads_rank (n : Z) :
  1 <= n -> n * 99 <= INT_MAX ->
  Forall (fun pi => pi.2 = n * pi.1 / 100 - 1 /\ 0 <= pi.2 < n)
    (percentile_reads n).
Proof.
  intros Hn Hmax. unfold percentile_reads.
  repeat apply Forall_app_2;
    repeat match goal with
           | |- Forall _ (if ?c then _ else _) => destruct c eqn:?
           | |- Forall _ [] => constructor
           | |- Forall _ [_] => constructor; [cbn [fst snd] | constructor]
           end.
  - split; [apply pct_index_rank; lia |].
    apply (gated_index_in_bounds n 50 3); [tauto | lia | lia].
  - split; [apply pct_index_rank; lia |].
    apply (gated_index_in_bounds n 90 10); [tauto | lia | lia].
  - split; [apply pct_index_rank; lia |].
    apply (gated_index_in_bounds n 99 100); [tauto | lia | lia].
  - rewrite Z.div_mul by lia. split; [| apply last_index_in_bounds; lia].
    apply sint_id. unfold INT_MIN, INT_MAX in *. lia.
Qed.

Lemma percentile_reads_rank_witness :
  Forall (fun pi => pi.2 = 100 * pi.1 / 100 - 1 /\ 0 <= pi.2 < 100)
    (percentile_reads 100).
Proof. apply (percentile_reads_rank 100); unfold INT_MAX; lia. Defined.

(** From two runs up to 42949672 (where [runs * 50] still fits [int]) the
    summary reads the median and the slowest run inside the array. *)
Lemma summary_reads_in_bounds (runs : Z) :
  2 <= runs -> runs * 50 <= INT_MAX ->
  0 <= pct_index runs 50 < runs /\ 0 <= sint (runs - 1) < runs.
Proof.
  intros Hr Hmax. split; [now apply median_index_in_bounds |].
  apply last_index_in_bounds. unfold INT_MAX in *. lia.
Qed.

Lemma summary_reads_in_bounds_witness :
  0 <= pct_index 2 50 < 2 /\ 0 <= sint (2 - 1) < 2.
Proof. apply (summary_reads_in_bounds 2); unfold INT_MAX; lia. Defined.

(** Three runs of the same time: the percent difference is 0 after the
    second and the third, bucket 0 holds the three runs and no other bucket
    any, and the percentiles printed (the 50th and the 100th) are both 0. *)
Lemma identical_runs_example :
  let w := world_of 100000 3 300000000 100000 3 [100000; 100000; 100000] in
  let st2 := (@run_loop float binary64 2 3 (mainrun w) (run_clock w) 0
                run_init).2 in
  let st3 := (@run_loop float binary64 3 3 (mainrun w) (run_clock w) 0
                run_init).2 in
  diff_pct st2 = of_Z 0 /\ diff_pct st3 = of_Z 0 /\
  match @main float binary64 w with
  | Ok rep =>
      hist (rep_hist rep) = 3 :: replicate 199 0 /\
      rep_percentiles rep = [(50, 100000, of_Z 0); (100, 100000, of_Z 0)]
  | _ => False
  end.
Proof.
  cbv zeta. split; [vm_compute; reflexivity |].
  split; [vm_compute; reflexivity |]. vm_compute. split; reflexivity.
Qed.

(** A stop after 2 of 100 runs: the report is of 2 runs, the only
    percentile printed is the 100th, and the summary is there. *)
Lemma early_stop_example :
  let w := world_of 100000 100 300000000 100000 2 [100000; 100500] in
  match @main float binary64 w with
  | Ok rep =>
      rep_runs rep = 2 /\ (rep_percentiles rep).*1 = [(100, 100500)] /\
      fastest_rate (rep_summary rep) = 3000000000 /\
      median_rate (rep_summary rep) = 3000000000 /\
      slowest_rate (rep_summary rep) = 2985074626
  | _ => False
  end.
Proof. cbv zeta. vm_compute. repeat split. Qed.
(** ** More on the run loop *)

Section RunLoop.
Context {D : Type} `{Double D}.

Lemma run_body_slow_inv (st : run_state D) (ts : timeval * timeval) :
  slow_inv st -> slow_inv (run_body st ts).
Proof.
  intros (Hall & Hmax). unfold slow_inv, run_body.
  cbn [runs_us slowest_time_us].
  pose proof (ull_range (1000000 * (tv_sec ts.2 - tv_sec ts.1)
                         + (tv_usec ts.2 - tv_usec ts.1) ÷ 1)) as Ht.
  fold (elapsed_us ts) in Ht. set (t := elapsed_us ts) in *.
  assert (H0 : 0 <= slowest_time_us st).
  { destruct Hmax as [[_ ->] | Hin]; [lia |].
    rewrite Forall_forall in Hall. apply (Hall _ Hin). }
  destruct (Z.gtb_spec t (slowest_time_us st)) as [Hgt | Hle]; split.
  - apply Forall_app. split.
    + eapply Forall_impl; [exact Hall |]. cbn. lia.
    + repeat constructor; lia.
  - right. apply elem_of_app. right. now apply list_elem_of_singleton.
  - apply Forall_app. split; [assumption |]. repeat constructor; lia.
  - right. destruct Hmax as [[Hnil Hz] | Hin].
    + apply elem_of_app. right. apply list_elem_of_singleton. lia.
    + apply elem_of_app. now left.
Qed.

Lemma run_loop_slow_inv (fuel : nat) (max_runs : Z) (mainrun : nat -> bool)
    (clock : nat -> timeval * timeval) :
  forall (i : nat) (st : run_state D),
    slow_inv st ->
    slow_inv (run_loop fuel max_runs mainrun clock i st).2.
Proof.
  induction fuel as [| fuel IH]; intros i st Hinv; cbn [run_loop].
  - assumption.
  - destruct (mainrun i && (Z.of_nat i <? max_runs)); [| assumption].
    apply IH. now apply run_body_slow_inv.
Qed.

(** The slowest time is the maximum over the completed runs. *)
Lemma slowest_is_maximum (max_runs : Z) (mainrun : nat -> bool)
    (clock : nat -> timeval * timeval) :
  let r := run_loop (Z.to_nat max_runs) max_runs mainrun clock 0 run_init in
  Forall (fun t => t <= slowest_time_us r.2) (runs_us r.2) /\
  (r.1 <> 0%nat -> slowest_time_us r.2 ∈ runs_us r.2).
Proof.
  cbn zeta.
  destruct (run_loop_slow_inv (Z.to_nat max_runs) max_runs mainrun clock 0
              run_init) as (Hall & Hmax).
  { split; [constructor | now left]. }
  destruct (run_loop_inv (Z.to_nat max_runs) max_runs mainrun clock
              0 run_init run_init_inv) as (Hlen & _ & _).
  split.
  - eapply Forall_impl; [exact Hall |]. cbn. lia.
  - intros Hne. destruct Hmax as [[Hnil _] | Hin]; [| assumption].
    rewrite Hnil in Hlen. cbn in Hlen. congruence.
Qed.

(** The times recorded by a sequence of runs are the elapsed times of the
    clock readings, in the order of the runs. *)
Lemma after_runs_us (tss : list (timeval * timeval)) :
  forall st : run_state D,
    runs_us (after_runs st tss) = runs_us st ++ map elapsed_us tss.
Proof.
  induction tss as [| ts tss IH]; intros st; cbn [after_runs foldl map].
  - now rewrite app_nil_r.
  - fold (after_runs (run_body st ts) tss). rewrite IH.
    cbn [run_body runs_us]. now rewrite <- app_assoc.
Qed.

Lemma run_loop_turns (max_runs : Z) (mainrun : nat -> bool)
    (clock : nat -> timeval * timeval) (j : nat) :
  forall (fuel i : nat) (st : run_state D),
    (forall x, (i <= x < i + j)%nat -> mainrun x = true) ->
    Z.of_nat (i + j) <= max_runs ->
    (j <= fuel)%nat ->
    (j = fuel \/ Z.of_nat (i + j) = max_runs \/ mainrun (i + j)%nat = false) ->
    run_loop fuel max_runs mainrun clock i st
    = ((i + j)%nat, after_runs st (map clock (seq i j))).
Proof.
  induction j as [| j IH]; intros fuel i st Hup Hmax Hfuel Hstop.
  - rewrite Nat.add_0_r in *. cbn [seq map after_runs foldl].
    destruct fuel as [| fuel]; [reflexivity |]. cbn [run_loop].
    destruct Hstop as [Hz | [Hm | Hm]]; [lia | |].
    + destruct (Z.ltb_spec (Z.of_nat i) max_runs); [lia |].
      now rewrite andb_false_r.
    + now rewrite Hm.
  - destruct fuel as [| fuel]; [lia |]. cbn [run_loop].
    rewrite (Hup i) by lia.
    destruct (Z.ltb_spec (Z.of_nat i) max_runs); [| lia]. cbn [andb].
    rewrite (IH fuel (S i) (run_body st (clock i))).
    + f_equal. lia.
    + intros x Hx. apply Hup. lia.
    + lia.
    + lia.
    + replace (S i + j)%nat with (i + S j)%nat by lia.
      destruct Hstop as [Hs | [Hs | Hs]]; [left; lia | right; now left |].
      right. now right.
Qed.

(** The run loop makes exactly [k] runs when the stop flag is up before
    each of the first [k] runs and either [k] is [max_runs] or the flag is
    down before run [k]; the times recorded are those of the clock, in
    order. *)
Lemma run_loop_makes (max_runs : Z) (mainrun : nat -> bool)
    (clock : nat -> timeval * timeval) (k : nat) :
  (forall x, (x < k)%nat -> mainrun x = true) ->
  Z.of_nat k <= max_runs ->
  Z.of_nat k = max_runs \/ mainrun k = false ->
  let r := run_loop (Z.to_nat max_runs) max_runs mainrun clock 0
             (@run_init D _) in
  r.1 = k /\ runs_us r.2 = map (fun i => elapsed_us (clock i)) (seq 0 k).
Proof.
  intros Hup Hmax Hstop. cbn zeta.
  rewrite (run_loop_turns max_runs mainrun clock k (Z.to_nat max_runs) 0
             run_init).
  - cbn [fst snd]. split; [reflexivity |].
    rewrite after_runs_us, map_map. reflexivity.
  - intros x Hx. apply Hup. lia.
  - cbn. lia.
  - lia.
  - cbn [Nat.add]. destruct Hstop as [Hk | Hm]; [right; left; lia |].
    right. now right.
Qed.

End RunLoop.

(** ** [myceil], in exact arithmetic *)

Lemma xtrunc_neg (r : Q) : (r <= 0)%Q -> xtrunc (Fin r) = Some (Qceiling r).
Proof.
  destruct r as [n d]. unfold Qle, Qceiling, Qfloor. cbn. intros Hn.
  f_equal. rewrite Z.mul_1_r in Hn.
  rewrite <- (Z.opp_involutive n) at 1.
  rewrite Z.quot_opp_l by lia.
  rewrite Z.quot_div_nonneg by lia. reflexivity.
Qed.

Lemma Qceiling_floor_lt (r : Q) :
  (inject_Z (Qfloor r) < r)%Q -> Qceiling r = Qfloor r + 1.
Proof.
  intros Hlt. unfold Qceiling.
  assert (H1 : (- r < inject_Z (- Qfloor r))%Q).
  { rewrite inject_Z_opp. lra. }
  assert (H2 : (inject_Z (- Qfloor r - 1) <= - r)%Q).
  { unfold Z.sub. rewrite inject_Z_plus, inject_Z_opp.
    pose proof (Qlt_floor r) as Hf. rewrite inject_Z_plus in Hf.
    change (inject_Z (- (1))) with (- (1))%Q. change (inject_Z 1) with 1%Q in Hf.
    lra. }
  pose proof (Qfloor_lt_Z _ _ H1). pose proof (Qfloor_ge_Z _ _ H2). lia.
Qed.

Lemma Qceiling_floor_eq (r : Q) :
  (r <= inject_Z (Qfloor r))%Q -> Qceiling r = Qfloor r.
Proof.
  intros Hle. unfold Qceiling.
  assert (H1 : (inject_Z (- Qfloor r) <= - r)%Q).
  { rewrite inject_Z_opp. lra. }
  assert (H2 : (- r < inject_Z (- Qfloor r + 1))%Q).
  { rewrite inject_Z_plus, inject_Z_opp. pose proof (Qfloor_le r).
    change (inject_Z 1) with 1%Q. lra. }
  pose proof (Qfloor_lt_Z _ _ H2). pose proof (Qfloor_ge_Z _ _ H1). lia.
Qed.

Lemma myceil_ceiling (x : Q) :
  (inject_Z (INT_MIN - 1) < x)%Q -> (x <= inject_Z INT_MAX)%Q ->
  @myceil xreal exact (Fin x) = Ok (Qceiling x).
Proof.
  intros Hlo Hhi. unfold myceil, to_int. cbn [trunc exact dltb of_Z xltb].
  destruct (Qlt_le_dec x 0) as [Hneg | Hpos].
  - rewrite xtrunc_neg by lra.
    assert (Hc0 : Qceiling x <= 0).
    { unfold Qceiling. assert (0 <= Qfloor (- x)); [| lia].
      apply Qfloor_ge_Z. change (inject_Z 0) with 0%Q. lra. }
    assert (Hc1 : INT_MIN <= Qceiling x).
    { unfold Qceiling. assert (Qfloor (- x) < - INT_MIN + 1); [| lia].
      apply Qfloor_lt_Z. replace (- INT_MIN + 1) with (- (INT_MIN - 1)) by lia.
      rewrite inject_Z_opp. lra. }
    rewrite in_int_true by (unfold INT_MAX, INT_MIN in *; lia).
    cbn [mbind res_bind].
    replace (Qltb (inject_Z (Qceiling x)) x) with false; [reflexivity |].
    symmetry. apply Qltb_false. apply Qle_ceiling.
  - rewrite xtrunc_floor by assumption.
    assert (Hf0 : 0 <= Qfloor x).
    { apply Qfloor_ge_Z. now change (inject_Z 0) with 0%Q. }
    assert (Hf1 : Qfloor x <= INT_MAX).
    { rewrite <- (Qfloor_Z INT_MAX). now apply Qfloor_resp_le. }
    rewrite in_int_true by (unfold INT_MIN in *; lia).
    cbn [mbind res_bind].
    destruct (Qltb (inject_Z (Qfloor x)) x) eqn:E.
    + apply Qltb_true in E. rewrite (Qceiling_floor_lt x E).
      assert (Qfloor x < INT_MAX).
      { rewrite Zlt_Qlt. eapply Qlt_le_trans; eassumption. }
      rewrite sint_id by (unfold INT_MIN in *; lia). reflexivity.
    + apply Qltb_false in E. now rewrite (Qceiling_floor_eq x E).
Qed.

(** In exact arithmetic [myceil] is the ceiling, for every value above
    [INT_MIN - 1] and up to [INT_MAX]: the one integer [c] with
    [c - 1 < x <= c]. *)
Theorem myceil_is_ceiling (x : Q) :
  (inject_Z (INT_MIN - 1) < x)%Q -> (x <= inject_Z INT_MAX)%Q ->
  exists c, @myceil xreal exact (Fin x) = Ok c /\
            (inject_Z c - 1 < x)%Q /\ (x <= inject_Z c)%Q.
Proof.
  intros Hlo Hhi. exists (Qceiling x).
  split; [now apply myceil_ceiling |]. split; [| apply Qle_ceiling].
  pose proof (Qceiling_lt x) as Hc. unfold Z.sub in Hc.
  rewrite inject_Z_plus in Hc. change (inject_Z (- (1))) with (- (1))%Q in Hc.
  lra.
Qed.

Lemma myceil_is_ceiling_witness :
  exists c, @myceil xreal exact (Fin 12.5) = Ok c /\
            (inject_Z c - 1 < 12.5)%Q /\ (12.5 <= inject_Z c)%Q.
Proof.
  apply (myceil_is_ceiling 12.5); unfold Qlt, Qle, INT_MIN, INT_MAX; simpl; lia.
Defined.

(** ** What the histogram holds *)

Lemma Zsum_app (l k : list Z) : Zsum (l ++ k) = Zsum l + Zsum k.
Proof.
  induction l as [| x l IH]; [reflexivity |].
  change ((x :: l) ++ k) with (x :: (l ++ k)). rewrite !Zsum_cons, IH. lia.
Qed.

Lemma Zsum_zeros (l : list Z) : Forall (fun c => c = 0) l -> Zsum l = 0.
Proof.
  induction 1 as [| x l -> _ IH]; [reflexivity |]. now rewrite Zsum_cons, IH.
Qed.

Section Buckets.
Context {D : Type} `{Double D}.

(** What one turn of the histogram loop does, when it goes through. *)
Lemma hist_step_Ok (fastest : Z) (st st' : hist_state) (t : Z) :
  hist_step fastest st t = Ok st' ->
  exists idx c,
    hist_idx (pct_over t fastest) BUCKETS = Ok idx /\ 0 <= idx /\
    hist st !! Z.to_nat idx = Some c /\
    st' = {| hist := <[Z.to_nat idx := sint (c + 1)]> (hist st);
             max_idx := if idx >? max_idx st then idx else max_idx st;
             total_time_us := ull (total_time_us st + t) |}.
Proof.
  unfold hist_step.
  destruct (hist_idx (pct_over t fastest) BUCKETS) as [idx | |];
    cbn [mbind res_bind]; try discriminate.
  destruct (Z.ltb_spec idx 0); [discriminate |].
  destruct (rd (hist st) idx) as [c | |] eqn:Hrd;
    cbn [mbind res_bind]; try discriminate.
  intros [= <-]. apply rd_Ok in Hrd as [_ Hc]. eauto 8.
Qed.

Lemma hist_pass_landed (fastest : Z) (l : list Z) :
  forall (st st' : hist_state) (n : Z),
    hist_inv st n -> n + Z.of_nat (length l) <= INT_MAX ->
    hist_pass fastest l st = Ok st' ->
    forall (i : nat) (c : Z),
      hist st !! i = Some c ->
      hist st' !! i = Some (c + landed fastest (Z.of_nat i) l).
Proof.
  induction l as [| t l IH]; intros st st' n Hinv Hn; cbn [hist_pass landed].
  - intros [= <-] i c Hc. now rewrite Z.add_0_r.
  - destruct (hist_step fastest st t) as [st1 | |] eqn:Hstep;
      cbn [mbind res_bind]; try discriminate.
    intros Hpass i c Hc. cbn [length] in Hn.
    pose proof (hist_step_inv _ _ _ _ _ Hinv ltac:(lia) Hstep) as Hinv1.
    destruct (hist_step_Ok _ _ _ _ Hstep) as (idx & c0 & Hidx & H0 & Hc0 & ->).
    destruct Hinv as (Hlen & Hpos & Hsum).
    pose proof (Zsum_bounds_elem _ _ _ Hpos Hc0) as Hb.
    unfold lands. rewrite Hidx.
    destruct (Z.eqb_spec idx (Z.of_nat i)) as [-> | Hne].
    + rewrite Nat2Z.id in *. rewrite Hc in Hc0. injection Hc0 as <-.
      rewrite (IH _ st' (n + 1) Hinv1 ltac:(lia) Hpass i (c + 1)).
      * f_equal. lia.
      * cbn [hist]. rewrite sint_id by (unfold INT_MIN; lia).
        apply list_lookup_insert_eq. now apply lookup_lt_Some in Hc.
    + rewrite (IH _ st' (n + 1) Hinv1 ltac:(lia) Hpass i c).
      * f_equal.
      * cbn [hist]. rewrite list_lookup_insert_ne; [assumption |]. lia.
Qed.

(** After the histogram pass each of the 200 buckets holds the number of
    runs whose index is that of the bucket. *)
Lemma hist_holds_landed (fastest : Z) (runs_us : list Z) (hs : hist_state)
    (i : Z) :
  Z.of_nat (length runs_us) <= INT_MAX ->
  hist_pass fastest runs_us hist_init = Ok hs ->
  0 <= i < 200 ->
  hist hs !! Z.to_nat i = Some (landed fastest i runs_us).
Proof.
  intros Hlen Hpass Hi.
  rewrite (hist_pass_landed fastest runs_us hist_init hs 0 hist_init_inv
             ltac:(lia) Hpass (Z.to_nat i) 0).
  - rewrite Z2Nat.id by lia. reflexivity.
  - unfold hist_init. cbn [hist]. apply lookup_replicate_2.
    unfold BUCKETS. lia.
Qed.

Lemma hist_step_top (fastest : Z) (st st' : hist_state) (t n : Z) :
  hist_inv st n -> n < INT_MAX -> top_inv st ->
  hist_step fastest st t = Ok st' -> top_inv st'.
Proof.
  intros (Hlen & Hpos & Hsum) Hn (Hmax & Hzero & Hocc) Hstep.
  destruct (hist_step_Ok _ _ _ _ Hstep) as (idx & c0 & _ & H0 & Hc0 & ->).
  pose proof (Zsum_bounds_elem _ _ _ Hpos Hc0) as Hb.
  pose proof (lookup_lt_Some _ _ _ Hc0) as Hlt.
  unfold top_inv. cbn [hist max_idx].
  rewrite sint_id by (unfold INT_MIN; lia).
  destruct (Z.gtb_spec idx (max_idx st)) as [Hgt | Hle].
  - split; [lia |]. split.
    + rewrite drop_insert_lt by lia.
      replace (Z.to_nat (idx + 1))
        with (Z.to_nat (max_idx st + 1) + Z.to_nat (idx - max_idx st))%nat
        by lia.
      rewrite <- drop_drop. now apply Forall_drop.
    + right. exists (c0 + 1). split; [| lia].
      now apply list_lookup_insert_eq.
  - split; [lia |]. split.
    + rewrite drop_insert_lt by lia. assumption.
    + destruct Hocc as [Hz | (c & Hc & Hc1)]; [now left |]. right.
      destruct (Z.eq_dec idx (max_idx st)) as [-> | Hne].
      * exists (c0 + 1). split; [| lia]. now apply list_lookup_insert_eq.
      * exists c. split; [| assumption].
        rewrite list_lookup_insert_ne; [assumption | lia].
Qed.

Lemma hist_pass_top (fastest : Z) (l : list Z) :
  forall (st st' : hist_state) (n : Z),
    hist_inv st n -> n + Z.of_nat (length l) <= INT_MAX -> top_inv st ->
    hist_pass fastest l st = Ok st' -> top_inv st'.
Proof.
  induction l as [| t l IH]; intros st st' n Hinv Hn Htop; cbn [hist_pass].
  - now intros [= <-].
  - destruct (hist_step fastest st t) as [st1 | |] eqn:Hstep;
      cbn [mbind res_bind]; try discriminate.
    intros Hpass. cbn [length] in Hn.
    apply (IH st1 st' (n + 1)); try assumption; try lia.
    + apply (hist_step_inv fastest st st1 t n); [assumption | lia | assumption].
    + apply (hist_step_top fastest st st1 t n); [assumption | lia | assumption
                                                 | assumption].
Qed.

Lemma hist_init_top : top_inv hist_init.
Proof.
  unfold top_inv, hist_init. cbn [hist max_idx]. split; [lia |].
  split; [| now left]. apply Forall_drop, Forall_replicate. reflexivity.
Qed.

Lemma hist_pass_shown (fastest : Z) (runs_us : list Z)
    (hs : hist_state) :
  Z.of_nat (length runs_us) <= INT_MAX ->
  hist_pass fastest runs_us hist_init = Ok hs ->
  0 <= max_idx hs < 200 /\
  length (shown hs) = Z.to_nat (max_idx hs + 1) /\
  Zsum (shown hs) = Z.of_nat (length runs_us) /\
  (runs_us <> [] ->
   exists c, hist hs !! Z.to_nat (max_idx hs) = Some c /\ 1 <= c).
Proof.
  intros Hlen Hpass.
  destruct (hist_pass_inv fastest runs_us hist_init hs 0 hist_init_inv
              ltac:(lia) Hpass) as (H200 & Hpos & Hsum).
  destruct (hist_pass_top fastest runs_us hist_init hs 0 hist_init_inv
              ltac:(lia) hist_init_top Hpass) as (Hmax & Hzero & Hocc).
  assert (Hshown : Zsum (shown hs) = Z.of_nat (length runs_us)).
  { rewrite <- (take_drop (Z.to_nat (max_idx hs + 1)) (hist hs)) in Hsum.
    rewrite Zsum_app, (Zsum_zeros _ Hzero) in Hsum. unfold shown. lia. }
  split; [assumption |]. split; [| split; [assumption |]].
  - unfold shown. rewrite length_take. lia.
  - intros Hne. destruct Hocc as [Hz | Hc]; [| assumption].
    unfold shown in Hshown. rewrite Hz in *.
    destruct (hist hs) as [| c l] eqn:E; [discriminate |].
    exists c. split; [reflexivity |].
    change (take (Z.to_nat (0 + 1)) (c :: l)) with [c] in Hshown.
    rewrite Zsum_cons in Hshown. change (Zsum []) with 0 in Hshown.
    destruct runs_us; [contradiction |]. cbn [length] in Hshown. lia.
Qed.

End Buckets.

(** ** The rows of the histogram *)

Lemma foldl_max_spec (l : list Z) :
  forall m0 : Z,
    let r := foldl (fun m c => if c >? m then c else m) m0 l in
    m0 <= r /\ Forall (fun c => c <= r) l /\ (r = m0 \/ r ∈ l).
Proof.
  induction l as [| c l IH]; intros m0; cbn [foldl].
  - cbn zeta. split; [lia |]. split; [constructor | now left].
  - specialize (IH (if c >? m0 then c else m0)). cbn zeta in *.
    destruct IH as (Hle & Hall & Hin).
    destruct (Z.gtb_spec c m0) as [Hgt | Hngt].
    + split; [lia |]. split; [constructor; [lia | assumption] |].
      right. destruct Hin as [-> | Hin]; [now left | now right].
    + split; [lia |]. split; [constructor; [lia | assumption] |].
      destruct Hin as [Heq | Hin]; [now left | right; now right].
Qed.

(** [max_bucket_count] is the largest count printed; it is 1 or more when
    there is a run. *)
Lemma max_bucket_count_spec {D : Type} `{Double D} (fastest : Z)
    (runs_us : list Z) (hs : hist_state) :
  Z.of_nat (length runs_us) <= INT_MAX ->
  hist_pass fastest runs_us hist_init = Ok hs ->
  Forall (fun c => 0 <= c <= max_bucket_count hs) (shown hs) /\
  (max_bucket_count hs = 0 \/ max_bucket_count hs ∈ shown hs) /\
  (runs_us <> [] -> 1 <= max_bucket_count hs).
Proof.
  intros Hlen Hpass.
  destruct (hist_pass_inv fastest runs_us hist_init hs 0 hist_init_inv
              ltac:(lia) Hpass) as (H200 & Hpos & Hsum).
  destruct (hist_pass_shown fastest runs_us hs Hlen Hpass)
    as (Hmax & _ & _ & Hocc).
  destruct (foldl_max_spec (shown hs) 0) as (H0 & Hall & Hin).
  fold (max_bucket_count hs) in H0, Hall, Hin.
  assert (Hnn : Forall (Z.le 0) (shown hs)) by now apply Forall_take.
  split; [| split; [assumption |]].
  - rewrite Forall_forall in *. intros c Hc.
    specialize (Hall c Hc). specialize (Hnn c Hc). lia.
  - intros Hne. destruct (Hocc Hne) as (c & Hc & Hc1).
    assert (Hs : shown hs !! Z.to_nat (max_idx hs) = Some c).
    { unfold shown. rewrite lookup_take_lt by lia. assumption. }
    apply list_elem_of_lookup_2 in Hs. rewrite Forall_forall in Hall.
    specialize (Hall c Hs). lia.
Qed.

(** ** Reading the sorted array *)

Lemma sorted_lookup_le (a : list Z) :
  Sorted Z.le a ->
  forall (i j : nat) (x y : Z),
    (i <= j)%nat -> a !! i = Some x -> a !! j = Some y -> x <= y.
Proof.
  intros Hs. apply Sorted_StronglySorted in Hs; [| exact Z.le_trans].
  induction Hs as [| h a Hs IH Hall]; intros i j x y Hij Hx Hy;
    [discriminate |].
  destruct i as [| i], j as [| j]; cbn in Hx, Hy; try lia.
  - injection Hx as ->. injection Hy as ->. lia.
  - injection Hx as ->. rewrite Forall_forall in Hall. apply Hall.
    now apply list_elem_of_lookup_2 in Hy.
  - apply (IH i j); [lia | assumption | assumption].
Qed.

(** What [percentiles] hands back: for each read, the label and the time
    found at the index. *)
Lemma percentiles_Ok {D : Type} `{Double D} (sorted : list Z) (fastest : Z)
    (l : list (Z * Z)) :
  forall ps : list (Z * Z * D),
    percentiles sorted fastest l = Ok ps ->
    Forall2 (fun pi r => r.1.1 = pi.1 /\ rd sorted pi.2 = Ok r.1.2) l ps.
Proof.
  induction l as [| [p i] l IH]; intros ps; cbn [percentiles].
  - intros [= <-]. constructor.
  - unfold percentile. cbn [fst snd].
    destruct (rd sorted i) as [x | |] eqn:Hrd; cbn [mbind res_bind];
      try discriminate.
    destruct (percentiles sorted fastest l) as [rs | |];
      cbn [mbind res_bind]; try discriminate.
    intros [= <-]. constructor; [| now apply IH]. cbn. now split.
Qed.

(** The indices read for the percentiles go up with the percentile. *)
Lemma percentile_reads_ascend (n : Z) :
  1 <= n -> n * 99 <= INT_MAX -> Sorted Z.le (percentile_reads n).*2.
Proof.
  intros Hn Hmax.
  assert (H50 : pct_index n 50 = n * 50 / 100 - 1)
    by (apply pct_index_rank; lia).
  assert (H90 : pct_index n 90 = n * 90 / 100 - 1)
    by (apply pct_index_rank; lia).
  assert (H99 : pct_index n 99 = n * 99 / 100 - 1)
    by (apply pct_index_rank; lia).
  assert (Hl : sint (n - 1) = n - 1)
    by (apply sint_id; unfold INT_MIN, INT_MAX in *; lia).
  assert (n * 50 / 100 <= n * 90 / 100) by (apply Z.div_le_mono; lia).
  assert (n * 90 / 100 <= n * 99 / 100) by (apply Z.div_le_mono; lia).
  assert (n * 99 / 100 <= n) by (apply Z.div_le_upper_bound; lia).
  unfold percentile_reads. rewrite H50, H90, H99, Hl.
  destruct (n >=? 3), (n >=? 10), (n >=? 100); cbn;
    repeat (constructor; try lia).
Qed.

Lemma percentile_times_ascend {D : Type} `{Double D} (sorted : list Z)
    (fastest n : Z) (ps : list (Z * Z * D)) :
  Sorted Z.le sorted -> 1 <= n -> n * 99 <= INT_MAX ->
  percentiles sorted fastest (percentile_reads n) = Ok ps ->
  Sorted Z.le ps.*1.*2.
Proof.
  intros Hs Hn Hmax Hps. apply percentiles_Ok in Hps.
  pose proof (percentile_reads_ascend n Hn Hmax) as Hidx.
  revert Hps Hidx. generalize (percentile_reads n) as l. intros l Hps.
  induction Hps as [| [p i] [[q x] d] l ps [_ Hrd] Hps IH]; intros Hidx;
    cbn [fmap list_fmap fst snd] in *; [constructor |].
  apply Sorted_inv in Hidx as [Hidx Hhd].
  constructor; [now apply IH |].
  destruct Hps as [| [p' i'] [[q' x'] d'] l ps [_ Hrd'] Hps];
    cbn [fmap list_fmap fst snd] in *; constructor.
  apply HdRel_inv in Hhd.
  apply rd_Ok in Hrd as [Hi Hx]. apply rd_Ok in Hrd' as [Hi' Hx'].
  apply (sorted_lookup_le sorted Hs (Z.to_nat i) (Z.to_nat i')); try assumption.
  lia.
Qed.

Lemma sorted_ends (l s : list Z) (fastest slowest : Z) :
  s ≡ₚ l -> Sorted Z.le s -> Z.of_nat (length l) <= INT_MAX ->
  fastest ∈ l -> Forall (fun t => fastest <= t) l ->
  slowest ∈ l -> Forall (fun t => t <= slowest) l ->
  rd s 0 = Ok fastest /\
  rd s (sint (Z.of_nat (length l) - 1)) = Ok slowest.
Proof.
  intros Hp Hs Hlen Hfin Hfall Hsin Hsall.
  assert (Hl : length s = length l) by now rewrite Hp.
  rewrite <- Hp in Hfin, Hfall, Hsin, Hsall. rewrite <- Hl in *.
  clear Hp Hl l.
  assert (Hpos : (0 < length s)%nat).
  { destruct s; [now apply elem_of_nil in Hfin | cbn; lia]. }
  rewrite sint_id by (unfold INT_MIN, INT_MAX in *; lia).
  destruct (rd_in_bounds s 0 ltac:(lia)) as [x Hx].
  destruct (rd_in_bounds s (Z.of_nat (length s) - 1) ltac:(lia)) as [y Hy].
  rewrite Hx, Hy.
  apply rd_Ok in Hx as [_ Hx]. apply rd_Ok in Hy as [_ Hy].
  rewrite Forall_forall in Hfall, Hsall.
  apply list_elem_of_lookup_1 in Hfin as [i Hi].
  apply list_elem_of_lookup_1 in Hsin as [j Hj].
  pose proof (lookup_lt_Some _ _ _ Hj) as Hjlt.
  pose proof (sorted_lookup_le s Hs (Z.to_nat 0) i x fastest ltac:(lia) Hx Hi).
  pose proof (sorted_lookup_le s Hs j (Z.to_nat (Z.of_nat (length s) - 1))
                slowest y ltac:(lia) Hj Hy).
  pose proof (Hfall x (list_elem_of_lookup_2 _ _ _ Hx)).
  pose proof (Hsall y (list_elem_of_lookup_2 _ _ _ Hy)).
  split; f_equal; lia.
Qed.

Lemma ullcmp_order (l : list Z) :
  Forall (fun t => 0 <= t <= ULLONG_MAX) l ->
  (forall x y, x ∈ l -> y ∈ l -> x - y < 2 ^ 31) ->
  forall x y, x ∈ l -> y ∈ l -> ullcmp x y <= 0 <-> x <= y.
Proof.
  intros Hl Hd x y Hx Hy. rewrite Forall_forall in Hl.
  pose proof (Hd x y Hx Hy). pose proof (Hd y x Hy Hx).
  rewrite ullcmp_small; [lia | now apply Hl | now apply Hl |].
  unfold INT_MIN, INT_MAX. lia.
Qed.

Lemma run_inv_fastest_in {D : Type} (i : nat) (st : run_state D) :
  run_inv i st -> i <> 0%nat -> fastest_time_us st ∈ runs_us st.
Proof.
  intros (Hlen & Hall & Hmin) Hne. destruct Hmin as [Hm | Hin]; [| assumption].
  destruct (runs_us st) as [| t l] eqn:E; [cbn in Hlen; lia |].
  apply Forall_cons in Hall as [Ht _]. rewrite Hm in Ht.
  replace (fastest_time_us st) with t by lia. now left.
Qed.

Lemma slow_inv_slowest_in {D : Type} (st : run_state D) :
  slow_inv st -> runs_us st <> [] -> slowest_time_us st ∈ runs_us st.
Proof. intros (_ & [[Hnil _] | Hin]) Hne; [contradiction | assumption]. Qed.

(** When the times of the completed runs are less than 2^31 us apart, the
    array sorted by [main] starts with [fastest_time_us] and ends with
    [slowest_time_us]: the fastest rate and the 100th percentile are
    those of the fastest and of the slowest run. *)
Theorem sorted_runs_ends {D : Type} `{Double D} (max_runs : Z)
    (mainrun : nat -> bool) (clock : nat -> timeval * timeval) :
  let r := run_loop (Z.to_nat max_runs) max_runs mainrun clock 0
             (@run_init D _) in
  r.1 <> 0%nat -> Z.of_nat r.1 <= INT_MAX ->
  (forall x y, x ∈ runs_us r.2 -> y ∈ runs_us r.2 -> x - y < 2 ^ 31) ->
  rd (qsort ullcmp (runs_us r.2)) 0 = Ok (fastest_time_us r.2) /\
  rd (qsort ullcmp (runs_us r.2)) (sint (Z.of_nat r.1 - 1))
    = Ok (slowest_time_us r.2).
Proof.
  cbn zeta. intros Hne Hmax Hclose.
  pose proof (run_loop_inv (Z.to_nat max_runs) max_runs mainrun clock
                0 run_init run_init_inv) as Hinv.
  pose proof (run_loop_slow_inv (Z.to_nat max_runs) max_runs mainrun clock
                0 run_init) as Hslow.
  destruct (run_loop _ _ _ _ _ _) as [i st]. cbn [fst snd] in *.
  specialize (Hslow ltac:(split; [constructor | now left])).
  pose proof (run_inv_fastest_in i st Hinv Hne) as Hfin.
  destruct Hinv as (Hlen & Hall & _).
  assert (Hnil : runs_us st <> []).
  { intros E. rewrite E in Hlen. cbn in Hlen. congruence. }
  pose proof (slow_inv_slowest_in st Hslow Hnil) as Hsin.
  destruct Hslow as (Hsall & _).
  assert (Hrange : Forall (fun t => 0 <= t <= ULLONG_MAX) (runs_us st)).
  { eapply Forall_impl; [exact Hall |]. cbn. lia. }
  rewrite <- Hlen.
  apply (sorted_ends (runs_us st)).
  - apply qsort_perm.
  - apply qsort_sorted. now apply ullcmp_order.
  - now rewrite Hlen.
  - assumption.
  - eapply Forall_impl; [exact Hall |]. cbn. lia.
  - assumption.
  - eapply Forall_impl; [exact Hsall |]. cbn. lia.
Qed.

Lemma sorted_runs_ends_witness :
  let r := run_loop (Z.to_nat 4) 4 (mainrun example_world)
             (run_clock example_world) 0 (@run_init float _) in
  rd (qsort ullcmp (runs_us r.2)) 0 = Ok (fastest_time_us r.2) /\
  rd (qsort ullcmp (runs_us r.2)) (sint (Z.of_nat r.1 - 1))
    = Ok (slowest_time_us r.2).
Proof.
  apply (sorted_runs_ends (D := float) 4 (mainrun example_world)
           (run_clock example_world)).
  - vm_compute; discriminate.
  - vm_compute; discriminate.
  - assert (E : runs_us (run_loop (Z.to_nat 4) 4 (mainrun example_world)
             (run_clock example_world) 0 (@run_init float _)).2 = example_runs)
      by (vm_compute; reflexivity).
    rewrite E. unfold example_runs. intros x y.
    rewrite !elem_of_cons, !elem_of_nil. lia.
Defined.

(** ** The summary lines *)

Lemma ull_div_Ok (a b q : Z) : ull_div a b = Ok q -> b <> 0 /\ q = a / b.
Proof.
  unfold ull_div. destruct (Z.eqb_spec b 0); [discriminate |].
  now intros [= <-].
Qed.

Lemma rates_descend {D : Type} `{Double D} (sorted : list Z)
    (runs fastest slowest total iter_count : Z) (sm : summary D) :
  Sorted Z.le sorted -> Forall (Z.le 0) sorted ->
  Z.of_nat (length sorted) = runs -> runs <= INT_MAX ->
  summarize sorted runs fastest slowest total iter_count = Ok sm ->
  slowest_rate sm <= median_rate sm <= fastest_rate sm.
Proof.
  intros Hs Hpos Hlen Hmax Hsum. unfold summarize in Hsum.
  apply bind_Ok in Hsum as (m & _ & Hsum).
  apply bind_Ok in Hsum as (x0 & Hx0 & Hsum).
  apply bind_Ok in Hsum as (r0 & Hr0 & Hsum).
  apply bind_Ok in Hsum as (m' & Hm & Hsum).
  apply bind_Ok in Hsum as (rm & Hrm & Hsum).
  apply bind_Ok in Hsum as (mean & _ & Hsum).
  apply bind_Ok in Hsum as (ra & _ & Hsum).
  apply bind_Ok in Hsum as (xl & Hxl & Hsum).
  apply bind_Ok in Hsum as (rl & Hrl & Hsum).
  injection Hsum as <-. cbn [slowest_rate median_rate fastest_rate].
  apply ull_div_Ok in Hr0 as [Hn0 ->]. apply ull_div_Ok in Hrm as [Hnm ->].
  apply ull_div_Ok in Hrl as [Hnl ->].
  apply rd_Ok in Hx0 as [_ Hx0]. apply rd_Ok in Hm as [Hi Hm].
  apply rd_Ok in Hxl as [Hj Hxl].
  pose proof (lookup_lt_Some _ _ _ Hm) as Hilt.
  assert (Hlast : sint (runs - 1) = runs - 1).
  { apply sint_id. unfold INT_MIN, INT_MAX in *. lia. }
  rewrite Hlast in Hxl.
  pose proof (sorted_lookup_le sorted Hs (Z.to_nat 0)
                (Z.to_nat (pct_index runs 50)) x0 m' ltac:(lia) Hx0 Hm).
  pose proof (sorted_lookup_le sorted Hs (Z.to_nat (pct_index runs 50))
                (Z.to_nat (runs - 1)) m' xl ltac:(lia) Hm Hxl).
  rewrite Forall_forall in Hpos.
  pose proof (Hpos x0 (list_elem_of_lookup_2 _ _ _ Hx0)).
  pose proof (ull_range (iter_count * 1000000)) as [HN _].
  split; apply Z.div_le_compat_l; lia.
Qed.

Lemma summarize_defined {D : Type} `{Double D} (sorted : list Z)
    (runs fastest slowest total iter_count : Z) :
  Z.of_nat (length sorted) = runs -> 2 <= runs -> runs * 50 <= INT_MAX ->
  Forall (fun t => 0 < t) sorted -> runs <= total ->
  exists sm, summarize sorted runs fastest slowest total iter_count = Ok sm.
Proof.
  intros Hlen Hr Hmax Hpos Htot. unfold summarize.
  pose proof (median_index_in_bounds runs Hr Hmax) as Hm.
  pose proof (last_index_in_bounds runs
                ltac:(unfold INT_MAX in *; lia)) as Hl.
  subst runs.
  destruct (rd_in_bounds sorted _ Hm) as [m Hmed].
  destruct (rd_in_bounds sorted 0 ltac:(lia)) as [x0 Hx0].
  destruct (rd_in_bounds sorted _ Hl) as [xl Hxl].
  rewrite Forall_forall in Hpos.
  assert (Hnz : forall i x, rd sorted i = Ok x -> x <> 0).
  { intros i x Hrd. apply rd_Ok in Hrd as [_ Hrd].
    apply list_elem_of_lookup_2 in Hrd. specialize (Hpos x Hrd). lia. }
  assert (Hdiv : forall a b, b <> 0 -> ull_div a b = Ok (a / b)).
  { intros a b Hb. unfold ull_div. now destruct (Z.eqb_spec b 0). }
  rewrite Hmed, Hx0, Hxl. cbn [mbind res_bind].
  rewrite (Hdiv _ x0) by eauto. cbn [mbind res_bind].
  rewrite (Hdiv _ m) by eauto. cbn [mbind res_bind].
  set (runs := Z.of_nat (length sorted)) in *.
  assert (Hu : ull runs = runs).
  { unfold ull. apply Z.mod_small. unfold INT_MAX in *. lia. }
  rewrite Hu, (Hdiv total runs) by lia. cbn [mbind res_bind].
  assert (1 <= total / runs) by (apply Z.div_le_lower_bound; lia).
  rewrite (Hdiv _ (total / runs)) by lia. cbn [mbind res_bind].
  rewrite (Hdiv _ xl) by eauto. cbn [mbind res_bind]. eauto.
Qed.

Lemma ull_add_l (a b : Z) : ull (ull a + b) = ull (a + b).
Proof. unfold ull. apply Zplus_mod_idemp_l. Qed.

Lemma hist_pass_total {D : Type} `{Double D} (fastest : Z) (l : list Z) :
  forall st st' : hist_state,
    ull (total_time_us st) = total_time_us st ->
    hist_pass fastest l st = Ok st' ->
    total_time_us st' = ull (total_time_us st + Zsum l).
Proof.
  induction l as [| t l IH]; intros st st' Hst; cbn [hist_pass].
  - intros [= <-]. change (Zsum []) with 0. now rewrite Z.add_0_r.
  - destruct (hist_step fastest st t) as [st1 | |] eqn:Hstep;
      cbn [mbind res_bind]; try discriminate.
    intros Hpass.
    destruct (hist_step_Ok _ _ _ _ Hstep) as (idx & c & _ & _ & _ & ->).
    assert (Hst1 : ull (ull (total_time_us st + t))
                   = ull (total_time_us st + t)) by apply Zmod_mod.
    rewrite (IH _ st' (Hst1 : ull (total_time_us (Build_hist_state _ _ _)) = _) Hpass).
    cbn [total_time_us]. rewrite Zsum_cons, ull_add_l. f_equal. lia.
Qed.

(** ** Every report of [main] *)

(** What a report is made of. *)
Lemma main_Ok_parts {D : Type} `{Double D} (w : world) (rep : report D) :
  main w = Ok rep ->
  exists (i : nat) (st : run_state D) (hs : hist_state),
    run_loop (Z.to_nat (max_runs w)) (max_runs w) (mainrun w) (run_clock w)
      0 run_init = (i, st) /\
    hist_pass (fastest_time_us st) (runs_us st) hist_init = Ok hs /\
    hist_rows (Z.of_nat i) (max_bucket_count hs) 0 (shown hs)
      = Ok (rep_rows rep) /\
    percentiles (qsort ullcmp (runs_us st)) (fastest_time_us st)
      (percentile_reads (Z.of_nat i)) = Ok (rep_percentiles rep) /\
    summarize (qsort ullcmp (runs_us st)) (Z.of_nat i) (fastest_time_us st)
      (slowest_time_us st) (total_time_us hs) (rep_iter_count rep)
      = Ok (rep_summary rep) /\
    rep_runs rep = Z.of_nat i /\ rep_hist rep = hs /\
    rep_sorted rep = qsort ullcmp (runs_us st).
Proof.
  unfold main.
  destruct (target_us w =? 0); [discriminate |].
  destruct (negb (malloc_ok w)); [discriminate |].
  intros Hm. apply bind_Ok in Hm as (_ & _ & Hm).
  apply bind_Ok in Hm as (_ & _ & Hm).
  apply bind_Ok in Hm as (iter_count & _ & Hm).
  destruct (run_loop _ _ _ _ _ _) as [i st].
  apply bind_Ok in Hm as (_ & _ & Hm).
  exists i, st. unfold post_process in Hm.
  apply bind_Ok in Hm as (hs & Hpass & Hm).
  apply bind_Ok in Hm as (rows & Hrows & Hm).
  apply bind_Ok in Hm as (ps & Hps & Hm).
  apply bind_Ok in Hm as (sm & Hsm & Hm).
  injection Hm as <-. exists hs. cbn [rep_rows rep_percentiles rep_summary
    rep_iter_count rep_runs rep_hist rep_sorted]. auto 10.
Qed.

(** The runs of a report: their count fits [max_runs], each time is an
    [unsigned long long]. *)
Lemma main_runs_inv {D : Type} `{Double D} (w : world) (i : nat)
    (st : run_state D) :
  run_loop (Z.to_nat (max_runs w)) (max_runs w) (mainrun w) (run_clock w)
    0 run_init = (i, st) ->
  run_inv i st /\ slow_inv st /\ Z.of_nat i <= Z.max 0 (max_runs w).
Proof.
  intros Hrun.
  pose proof (run_loop_inv (Z.to_nat (max_runs w)) (max_runs w) (mainrun w)
                (run_clock w) 0 run_init run_init_inv) as Hinv.
  pose proof (run_loop_slow_inv (Z.to_nat (max_runs w)) (max_runs w)
                (mainrun w) (run_clock w) 0 run_init
                ltac:(split; [constructor | now left])) as Hslow.
  pose proof (run_loop_count (Z.to_nat (max_runs w)) (max_runs w)
                (mainrun w) (run_clock w) 0 run_init) as Hcount.
  cbn zeta in Hcount. rewrite Hrun in *. cbn [fst snd] in *.
  repeat split; try assumption; try apply Hinv; try apply Hslow. lia.
Qed.

Lemma hist_rows_counts {D : Type} `{Double D} (runs mbc : Z) (l : list Z) :
  forall (i : Z) (rows : list (row D)),
    hist_rows runs mbc i l = Ok rows -> map row_count rows = l.
Proof.
  induction l as [| c l IH]; intros i rows; cbn [hist_rows].
  - now intros [= <-].
  - intros Hr. apply bind_Ok in Hr as (r & Hrow & Hr).
    apply bind_Ok in Hr as (rs & Hrs & Hr). injection Hr as <-.
    unfold hist_row in Hrow. apply bind_Ok in Hrow as (bar & _ & Hrow).
    injection Hrow as <-. cbn [map row_count]. f_equal. now apply (IH (i + 1)).
Qed.

(** In every report of [main] the rows printed, one for each bucket from
    0 to [max_idx], hold all the runs: the Count column adds up to the
    number of runs, and no run is in a bucket that is not printed. *)
Theorem report_rows_hold_all_runs {D : Type} `{Double D} (w : world)
    (rep : report D) :
  max_runs w <= INT_MAX -> main w = Ok rep ->
  0 <= max_idx (rep_hist rep) < 200 /\
  length (rep_rows rep) = Z.to_nat (max_idx (rep_hist rep) + 1) /\
  Zsum (map row_count (rep_rows rep)) = rep_runs rep.
Proof.
  intros Hmax Hm.
  destruct (main_Ok_parts w rep Hm)
    as (i & st & hs & Hrun & Hpass & Hrows & _ & _ & -> & -> & _).
  destruct (main_runs_inv w i st Hrun) as ((Hlen & _) & _ & Hi).
  destruct (hist_pass_shown (fastest_time_us st) (runs_us st) hs
              ltac:(rewrite Hlen; unfold INT_MAX in *; lia) Hpass) as (Hidx & Hslen & Hsum & _).
  apply hist_rows_counts in Hrows.
  split; [assumption |]. split.
  - rewrite <- Hslen, <- Hrows. now rewrite length_map.
  - rewrite Hrows, Hsum, Hlen. reflexivity.
Qed.

Lemma report_rows_hold_all_runs_witness :
  exists rep, @main float binary64 example_world = Ok rep /\
    0 <= max_idx (rep_hist rep) < 200 /\
    length (rep_rows rep) = Z.to_nat (max_idx (rep_hist rep) + 1) /\
    Zsum (map row_count (rep_rows rep)) = rep_runs rep.
Proof.
  eexists. split; [vm_compute; reflexivity |].
  apply (report_rows_hold_all_runs (D := float) example_world);
    [unfold INT_MAX; cbn; lia | vm_compute; reflexivity].
Defined.

Lemma report_sorted {D : Type} `{Double D} (w : world) (i : nat)
    (st : run_state D) :
  run_loop (Z.to_nat (max_runs w)) (max_runs w) (mainrun w) (run_clock w)
    0 run_init = (i, st) ->
  (forall x y, x ∈ qsort ullcmp (runs_us st) ->
               y ∈ qsort ullcmp (runs_us st) -> x - y < 2 ^ 31) ->
  Sorted Z.le (qsort ullcmp (runs_us st)) /\
  Forall (Z.le 0) (qsort ullcmp (runs_us st)) /\
  length (qsort ullcmp (runs_us st)) = i.
Proof.
  intros Hrun Hclose.
  destruct (main_runs_inv w i st Hrun) as ((Hlen & Hall & _) & _ & _).
  assert (Hrange : Forall (fun t => 0 <= t <= ULLONG_MAX) (runs_us st)).
  { eapply Forall_impl; [exact Hall |]. cbn. lia. }
  split; [| split].
  - apply qsort_sorted. apply ullcmp_order; [assumption |].
    intros x y Hx Hy. apply Hclose; now rewrite qsort_perm.
  - rewrite qsort_perm. eapply Forall_impl; [exact Hrange |]. cbn. lia.
  - now rewrite qsort_perm.
Qed.

(** In every report of [main] over runs less than 2^31 us apart, the rates
    printed go down from the fastest run to the median and to the slowest
    run. *)
Theorem report_rates_descend {D : Type} `{Double D} (w : world)
    (rep : report D) :
  max_runs w <= INT_MAX -> main w = Ok rep ->
  (forall x y, x ∈ rep_sorted rep -> y ∈ rep_sorted rep -> x - y < 2 ^ 31) ->
  slowest_rate (rep_summary rep) <= median_rate (rep_summary rep)
  <= fastest_rate (rep_summary rep).
Proof.
  intros Hmax Hm.
  destruct (main_Ok_parts w rep Hm)
    as (i & st & hs & Hrun & _ & _ & _ & Hsm & _ & _ & ->).
  intros Hclose.
  destruct (report_sorted w i st Hrun Hclose) as (Hs & Hpos & Hlen).
  destruct (main_runs_inv w i st Hrun) as (_ & _ & Hi).
  apply (rates_descend _ _ _ _ _ _ _ Hs Hpos ltac:(now rewrite Hlen)
           ltac:(unfold INT_MAX in *; lia) Hsm).
Qed.

Lemma report_rates_descend_witness :
  exists rep, @main float binary64 example_world = Ok rep /\
    slowest_rate (rep_summary rep) <= median_rate (rep_summary rep)
    <= fastest_rate (rep_summary rep).
Proof.
  eexists. split; [vm_compute; reflexivity |].
  apply (report_rates_descend (D := float) example_world);
    [unfold INT_MAX; cbn; lia | vm_compute; reflexivity |].
  intros x y. cbn [rep_sorted].
  rewrite !elem_of_cons, !elem_of_nil. lia.
Defined.

(** In every report of [main] over runs less than 2^31 us apart (and at
    most 21691754 of them), the times read for the percentiles go up with
    the percentile: 50th <= 90th <= 99th <= 100th, for those printed. *)
Theorem report_percentiles_ascend {D : Type} `{Double D} (w : world)
    (rep : report D) :
  max_runs w * 99 <= INT_MAX -> main w = Ok rep ->
  (forall x y, x ∈ rep_sorted rep -> y ∈ rep_sorted rep -> x - y < 2 ^ 31) ->
  Sorted Z.le (rep_percentiles rep).*1.*2.
Proof.
  intros Hmax Hm.
  destruct (main_Ok_parts w rep Hm)
    as (i & st & hs & Hrun & _ & _ & Hps & _ & _ & _ & ->).
  intros Hclose.
  destruct (report_sorted w i st Hrun Hclose) as (Hs & Hpos & Hlen).
  destruct (main_runs_inv w i st Hrun) as (_ & _ & Hi).
  assert (H1 : 1 <= Z.of_nat i).
  { destruct i as [| i]; [| lia]. exfalso.
    destruct (qsort ullcmp (runs_us st)); [| discriminate Hlen].
    vm_compute in Hps. discriminate Hps. }
  apply (percentile_times_ascend _ _ _ _ Hs H1
           ltac:(unfold INT_MAX in *; lia) Hps).
Qed.

Lemma report_percentiles_ascend_witness :
  exists rep, @main float binary64 example_world = Ok rep /\
    Sorted Z.le (rep_percentiles rep).*1.*2.
Proof.
  eexists. split; [vm_compute; reflexivity |].
  apply (report_percentiles_ascend (D := float) example_world);
    [unfold INT_MAX; cbn; lia | vm_compute; reflexivity |].
  intros x y. cbn [rep_sorted].
  rewrite !elem_of_cons, !elem_of_nil. lia.
Defined.

(** ** What the percentile line reads *)

Lemma percentiles_values {D : Type} `{Double D} (sorted : list Z)
    (fastest : Z) (l : list (Z * Z)) :
  forall ps : list (Z * Z * D),
    percentiles sorted fastest l = Ok ps ->
    Forall (fun r => r.1.2 ∈ sorted /\
                     r.2 = ddiv (dmul (of_Z 100)
                                   (of_Z (ull (r.1.2 - fastest))))
                             (of_Z fastest)) ps.
Proof.
  induction l as [| [p i] l IH]; intros ps; cbn [percentiles].
  - intros [= <-]. constructor.
  - intros Hps. apply bind_Ok in Hps as (r & Hr & Hps).
    apply bind_Ok in Hps as (rs & Hrs & Hps). injection Hps as <-.
    unfold percentile in Hr. apply bind_Ok in Hr as (x & Hx & Hr).
    injection Hr as <-. cbn [fst snd] in Hx. constructor; [| now apply IH].
    cbn [fst snd]. split; [| reflexivity].
    apply rd_Ok in Hx as [_ Hx]. now apply list_elem_of_lookup_2 in Hx.
Qed.

Lemma replicate_perm_eq (l : list Z) (n : nat) (t : Z) :
  l ≡ₚ replicate n t -> l = replicate n t.
Proof.
  intros Hp. assert (Hlen : length l = n)
    by (rewrite Hp; apply length_replicate).
  subst n. symmetry. apply replicate_as_Forall. split; [reflexivity |].
  apply Forall_forall. intros x Hx. rewrite Hp in Hx.
  now apply elem_of_replicate in Hx as [-> _].
Qed.

(** ** The options *)

Lemma memsize_of_mbytes (n : Z) :
  ull (sint (sint (n * 1024) * 1024))
  = if n mod 4096 <? 2048 then n mod 4096 * 2 ^ 20
    else 2 ^ 64 - (4096 - n mod 4096) * 2 ^ 20.
Proof.
  unfold ull, sint. change (2 ^ 20) with 1048576.
  change (2 ^ 31) with 2147483648. change (2 ^ 32) with 4294967296.
  change (2 ^ 64) with 18446744073709551616.
  destruct (Z.ltb_spec (n mod 4096) 2048);
    Z.to_euclidean_division_equations; lia.
Qed.

(** Of the Mbytes given to [-m] only the remainder modulo 4096 counts: a
    remainder of 0 is refused as a zero is, a remainder below 2048 is
    taken as that many Mbytes, and a remainder from 2048 on, negative once
    multiplied in [int], becomes a size of 2^64 bytes less
    (4096 - remainder) Mbytes. *)
Theorem option_m_size (o : options) (mbytes : Z) :
  let m := mbytes mod 4096 in
  option_case o (Opt_m mbytes)
  = if m =? 0 then Exit 0
    else Ok {| memsize := if m <? 2048 then m * 2 ^ 20
                          else 2 ^ 64 - (4096 - m) * 2 ^ 20;
               verbose := verbose o; memory := true |}.
Proof.
  cbn zeta. unfold option_case. rewrite memsize_of_mbytes.
  pose proof (Z.mod_pos_bound mbytes 4096 ltac:(lia)) as Hm.
  change (2 ^ 20) with 1048576. change (2 ^ 64) with 18446744073709551616.
  destruct (Z.eqb_spec (mbytes mod 4096) 0) as [-> | Hne]; [reflexivity |].
  destruct (Z.ltb_spec (mbytes mod 4096) 2048);
    match goal with
    | |- (if ?x =? 0 then _ else _) = _ =>
        destruct (Z.eqb_spec x 0); [lia | reflexivity]
    end.
Qed.

Lemma option_case_memsize (o o' : options) (c : option_c) :
  option_case o c = Ok o' ->
  (memsize o' = memsize o /\ memory o' = memory o) \/
  (memory o' = true /\
   exists k, 0 < k /\ k * 2 ^ 20 < 2 ^ 64 /\ memsize o' = k * 2 ^ 20).
Proof.
  destruct c as [n | | |]; try discriminate.
  - unfold option_case. rewrite memsize_of_mbytes.
    pose proof (Z.mod_pos_bound n 4096 ltac:(lia)) as Hb.
    match goal with
    | |- (if ?x =? 0 then _ else _) = _ -> _ =>
        destruct (Z.eqb_spec x 0); [discriminate |]
    end.
    intros [= <-]. right. cbn [memsize memory]. split; [reflexivity |].
    destruct (Z.ltb_spec (n mod 4096) 2048).
    + exists (n mod 4096). change (2 ^ 20) with 1048576 in *.
      change (2 ^ 64) with 18446744073709551616. lia.
    + exists (2 ^ 44 - (4096 - n mod 4096)). change (2 ^ 20) with 1048576.
      change (2 ^ 64) with 18446744073709551616.
      change (2 ^ 44) with 17592186044416. lia.
  - intros [= <-]. left. now split.
Qed.

(** What the options leave: without [-m] the defaults for the size and
    the workload; with one, the memory workload and a size that is a
    positive number of Mbytes, below 2^64 bytes. *)
Lemma getopt_loop_memsize (l : list option_c) :
  forall o o' : options,
    getopt_loop l o = Ok o' ->
    (memsize o' = memsize o /\ memory o' = memory o) \/
    (memory o' = true /\
     exists k, 0 < k /\ k * 2 ^ 20 < 2 ^ 64 /\ memsize o' = k * 2 ^ 20).
Proof.
  induction l as [| c l IH]; intros o o'; cbn [getopt_loop].
  - intros [= <-]. left. now split.
  - intros Hl. apply bind_Ok in Hl as (o1 & Hc & Hl).
    apply option_case_memsize in Hc. apply IH in Hl.
    destruct Hl as [[Hs Hm] | Hl]; [| now right].
    destruct Hc as [[Hs1 Hm1] | (Hm1 & Hk)].
    + left. split; congruence.
    + right. split; [congruence |]. now rewrite Hs.
Qed.

(** The options end [main], with 0, only through [-h], an option that is
    not one of the program, or a [-m] whose Mbytes are 0 modulo 4096. *)
Theorem getopt_loop_exit (l : list option_c) (o : options) (code : Z) :
  getopt_loop l o = Exit code ->
  code = 0 /\
  exists c, c ∈ l /\
    (c = Opt_h \/ c = Opt_other \/
     exists mbytes, c = Opt_m mbytes /\ mbytes mod 4096 = 0).
Proof.
  revert o. induction l as [| c l IH]; intros o; cbn [getopt_loop];
    [discriminate |].
  destruct (option_case o c) as [o1 | code1 |] eqn:Hc; cbn [mbind res_bind];
    [| | discriminate].
  - intros Hl. destruct (IH o1 Hl) as (-> & c' & Hin & Hcause).
    split; [reflexivity |]. exists c'. split; [now right | assumption].
  - intros [= <-]. destruct c as [n | | |]; try discriminate.
    + unfold option_case in Hc. rewrite memsize_of_mbytes in Hc.
      pose proof (Z.mod_pos_bound n 4096 ltac:(lia)) as Hb.
      change (2 ^ 20) with 1048576 in Hc.
      change (2 ^ 64) with 18446744073709551616 in Hc.
      destruct (Z.ltb_spec (n mod 4096) 2048);
        match type of Hc with
        | (if ?x =? 0 then _ else _) = _ =>
            destruct (Z.eqb_spec x 0); [| discriminate]
        end; injection Hc as <-.
      * split; [reflexivity |]. exists (Opt_m n). split; [now left |].
        right. right. exists n. split; [reflexivity | lia].
      * lia.
    + injection Hc as <-. split; [reflexivity |]. exists Opt_h.
      split; [now left | now left].
    + injection Hc as <-. split; [reflexivity |]. exists Opt_other.
      split; [now left | right; now left].
Qed.

Lemma getopt_loop_exit_witness :
  0 = 0 /\
  exists c, c ∈ [Opt_v; Opt_m 4096] /\
    (c = Opt_h \/ c = Opt_other \/
     exists mbytes, c = Opt_m mbytes /\ mbytes mod 4096 = 0).
Proof. apply (getopt_loop_exit [Opt_v; Opt_m 4096] defaults 0). reflexivity. Defined.

(** ** The scan of the memory workload *)

Lemma mem_reads_cycle (g_memsize g_stride k : Z) :
  0 < g_stride -> 0 <= k -> g_memsize = k * g_stride ->
  forall (n : nat) (j : Z), 0 <= j <= k ->
    mem_reads g_memsize g_stride n (j * g_stride)
    = map (fun i => (j + Z.of_nat i) mod (k + 1) * g_stride) (seq 0 n).
Proof.
  intros Hs Hk Hsize. induction n as [| n IH]; intros j Hj; [reflexivity |].
  cbn [mem_reads seq map]. f_equal.
  - rewrite Z.add_0_r, Z.mod_small by lia. reflexivity.
  - rewrite <- seq_shift, map_map. unfold mem_next.
    destruct (Z.gtb_spec (j * g_stride + g_stride) g_memsize) as [Hgt | Hle].
    + assert (j = k) by nia. subst j.
      pose proof (IH 0 ltac:(lia)) as E. rewrite Z.mul_0_l in E.
      rewrite E. apply map_ext. intros i. f_equal.
      replace (k + Z.of_nat (S i)) with (0 + Z.of_nat i + 1 * (k + 1)) by lia.
      now rewrite Z_mod_plus_full.
    + assert (j < k) by nia.
      replace (j * g_stride + g_stride) with ((j + 1) * g_stride) by lia.
      rewrite (IH (j + 1)) by lia. apply map_ext. intros i. do 2 f_equal. lia.
Qed.

(** Over a working set that is [k] strides long the memory workload reads
    the offsets 0, stride, 2 stride, ... up to the size itself, and starts
    again: turn [i] (from 0) reads at [(i mod (k + 1))] strides. *)
Theorem memory_scan_cycle (g_memsize g_stride k count : Z) :
  0 < g_stride -> 0 <= k -> g_memsize = k * g_stride ->
  (memrun g_memsize g_stride count).2
  = map (fun i => Z.of_nat i mod (k + 1) * g_stride)
      (seq 0 (Z.to_nat count)).
Proof.
  intros Hs Hk Hsize. unfold memrun. cbn [snd].
  pose proof (mem_reads_cycle g_memsize g_stride k Hs Hk Hsize
                (Z.to_nat count) 0 ltac:(lia)) as E.
  rewrite Z.mul_0_l in E. rewrite E. apply map_ext. intros i.
  now rewrite Z.add_0_l.
Qed.

Lemma memory_scan_cycle_witness :
  (memrun 128 64 7).2
  = map (fun i => Z.of_nat i mod (2 + 1) * 64) (seq 0 (Z.to_nat 7)).
Proof. apply (memory_scan_cycle 128 64 2 7); lia. Defined.

(** Whatever the Mbytes given to [-m], once the option is taken the
    working set is a whole number [k] of strides of 64 bytes, and a run
    of more than [k] turns reads, at turn [k], at the size itself: one
    byte past the end of the working set. *)
Theorem memory_mode_reads_past_end (l : list option_c) (o : options)
    (count : Z) :
  getopt_loop l defaults = Ok o -> memory o = true ->
  exists k, 0 < k /\ memsize o = k * 64 /\
    (k < count ->
     (memrun (memsize o) 64 count).2 !! Z.to_nat k = Some (memsize o)).
Proof.
  intros Hl Hm.
  destruct (getopt_loop_memsize l defaults o Hl) as [[_ Hd] | (_ & k & Hk & _ & Hs)].
  - rewrite Hm in Hd. discriminate.
  - exists (k * 2 ^ 14). change (2 ^ 14) with 16384.
    change (2 ^ 20) with 1048576 in Hs. split; [lia |]. split; [lia |].
    intros Hc. unfold memrun. cbn [snd].
    pose proof (mem_reads_cycle (memsize o) 64 (k * 16384) ltac:(lia)
                  ltac:(lia) ltac:(lia) (Z.to_nat count) 0 ltac:(lia)) as E.
    rewrite Z.mul_0_l in E. rewrite E.
    rewrite list_lookup_fmap, lookup_seq_lt by lia.
    cbn [fmap option_fmap option_map]. f_equal.
    rewrite Z.add_0_l, Nat.add_0_l, Z2Nat.id, Z.mod_small by lia. lia.
Qed.

Lemma memory_mode_reads_past_end_witness :
  exists k, 0 < k /\ 1048576 = k * 64 /\
    (k < 20000 ->
     (memrun 1048576 64 20000).2 !! Z.to_nat k = Some 1048576).
Proof.
  apply (memory_mode_reads_past_end [Opt_m 1]
           {| memsize := 1048576; verbose := false; memory := true |} 20000);
    reflexivity.
Defined.

(** ** The arguments *)

(** The time given in ms is taken modulo 2^64 us: as that many thousand us
    while the product fits, and as a target of 0, which [main] refuses,
    exactly when the ms are 0 modulo 2^61. *)
Theorem arguments_target (ms : Z) (rest : list Z) :
  (length rest <= 1)%nat ->
  exists count,
    arguments (ms :: rest) = Ok (ull (ms * 1000), count) /\
    (0 <= ms * 1000 < 2 ^ 64 -> ull (ms * 1000) = ms * 1000) /\
    (ull (ms * 1000) = 0 <-> ms mod 2 ^ 61 = 0).
Proof.
  intros Hrest. unfold arguments. cbn [length].
  destruct (Z.gtb_spec (Z.of_nat (S (length rest))) 2); [lia |].
  eexists. split; [reflexivity |]. split.
  - intros Hfit. unfold ull. now apply Z.mod_small.
  - unfold ull. change (2 ^ 64) with (2 ^ 61 * 8).
    replace (ms * 1000) with (ms * 125 * 8) by lia.
    rewrite Z.mul_mod_distr_r by lia.
    assert (Hg : (ms * 125) mod 2 ^ 61 = 0 <-> ms mod 2 ^ 61 = 0).
    { rewrite !Z.mod_divide by (change (2 ^ 61) with 2305843009213693952; lia).
      split.
      - intros Hd. rewrite Z.mul_comm in Hd.
        apply (Z.gauss _ 125 ms) in Hd; [assumption |]. reflexivity.
      - intros Hd. now apply Z.divide_mul_l. }
    rewrite <- Hg. lia.
Qed.

Lemma arguments_target_witness :
  exists count,
    arguments [300; 100] = Ok (ull (300 * 1000), count) /\
    (0 <= 300 * 1000 < 2 ^ 64 -> ull (300 * 1000) = 300 * 1000) /\
    (ull (300 * 1000) = 0 <-> 300 mod 2 ^ 61 = 0).
Proof. apply (arguments_target 300 [100]). cbn. lia. Defined.

(** ** The calibration that divides by zero *)

Lemma trials_bounds (clock : nat -> timeval * timeval) (n : nat) :
  forall (i : nat) (best : Z),
    0 <= best ->
    0 <= trials n i clock best <= best /\
    forall j, (i <= j < i + n)%nat ->
              trials n i clock best <= elapsed_us (clock j).
Proof.
  induction n as [| n IH]; intros i best Hbest; cbn [trials].
  - split; [lia | intros j Hj; lia].
  - pose proof (ull_range (1000000 * (tv_sec (clock i).2 - tv_sec (clock i).1)
                           + (tv_usec (clock i).2 - tv_usec (clock i).1) ÷ 1))
      as Ht. fold (elapsed_us (clock i)) in Ht.
    set (t := elapsed_us (clock i)) in *.
    destruct (Z.ltb_spec t best) as [Hlt | Hge].
    + destruct (IH (S i) t ltac:(lia)) as [H0 Hall].
      split; [lia |]. intros j Hj.
      destruct (decide (j = i)) as [-> | Hne]; [fold t; lia |].
      apply Hall. lia.
    + destruct (IH (S i) best Hbest) as [H0 Hall].
      split; [lia |]. intros j Hj.
      destruct (decide (j = i)) as [-> | Hne]; [fold t; lia |].
      apply Hall. lia.
Qed.

(** When one of the timed trials of the calibration takes less than a
    microsecond, the fastest time is 0 and [find_count] divides by it. *)
Theorem find_count_zero_time (target_us test_us test_runs : Z) (w : worker)
    (clock : nat -> timeval * timeval) (j : nat) :
  created w = true -> killed w = true ->
  (j < Z.to_nat test_runs)%nat -> elapsed_us (clock j) = 0 ->
  find_count target_us test_us test_runs w clock = Undef DivByZero.
Proof.
  intros Hc Hk Hj Hzero. unfold find_count.
  assert (Hrun : exists K, test_run (ull test_us) 0 w = Ok K).
  { unfold test_run. destruct (ull test_us =? 0); [eauto |].
    rewrite Hc, Hk. cbn [negb]. eauto. }
  destruct Hrun as [K ->]. cbn [mbind res_bind].
  destruct (trials_bounds clock (Z.to_nat test_runs) 0 ULLONG_MAX
              ltac:(unfold ULLONG_MAX; lia)) as [H0 Hall].
  specialize (Hall j ltac:(lia)). rewrite Hzero in Hall.
  replace (trials (Z.to_nat test_runs) 0 clock ULLONG_MAX) with 0 by lia.
  reflexivity.
Qed.

Lemma find_count_zero_time_witness :
  find_count 100000 100000 5 calib_example
    (fun i => if (i =? 3)%nat then tick 0 else tick 100000)
  = Undef DivByZero.
Proof.
  apply (find_count_zero_time 100000 100000 5 calib_example
           (fun i => if (i =? 3)%nat then tick 0 else tick 100000) 3);
    [reflexivity | reflexivity | cbn; lia | reflexivity].
Defined.

(** ** How [main] leaves early *)

Lemma never_exits_bind {A B : Type} (m : res A) (k : A -> res B) :
  never_exits m -> (forall a, never_exits (k a)) -> never_exits (m ≫= k).
Proof.
  intros Hm Hk code. destruct m as [a | c |]; cbn [mbind res_bind].
  - apply Hk.
  - destruct (Hm c eq_refl).
  - discriminate.
Qed.

Lemma never_exits_Ok {A : Type} (a : A) : never_exits (Ok a).
Proof. intros code. discriminate. Qed.

Lemma never_exits_rd (a : list Z) (i : Z) : never_exits (rd a i).
Proof.
  intros code. unfold rd. destruct (i <? 0); [discriminate |].
  destruct (a !! Z.to_nat i); discriminate.
Qed.

Lemma never_exits_ull_div (a b : Z) : never_exits (ull_div a b).
Proof. intros code. unfold ull_div. destruct (b =? 0); discriminate. Qed.

Lemma never_exits_to_int {D : Type} `{Double D} (x : D) :
  never_exits (to_int x).
Proof.
  intros code. unfold to_int. destruct (trunc x) as [z |]; [| discriminate].
  destruct (in_int z); discriminate.
Qed.

Lemma never_exits_hist_idx {D : Type} `{Double D} (v : D) (buckets : Z) :
  never_exits (hist_idx v buckets).
Proof.
  unfold hist_idx. apply never_exits_bind; [| intros; apply never_exits_Ok].
  destruct (dltb v (of_Z 1)); [apply never_exits_to_int |].
  destruct (dltb v (of_Z 20));
    (apply never_exits_bind;
     [apply never_exits_to_int | intros; apply never_exits_Ok]).
Qed.

Lemma never_exits_hist_rows {D : Type} `{Double D} (runs mbc : Z)
    (l : list Z) :
  forall i : Z, never_exits (hist_rows runs mbc i l).
Proof.
  induction l as [| c l IH]; intros i; cbn [hist_rows];
    [apply never_exits_Ok |].
  apply never_exits_bind.
  - unfold hist_row, myceil. apply never_exits_bind.
    + apply never_exits_bind; [apply never_exits_to_int |].
      intros k. destruct (dltb _ _); apply never_exits_Ok.
    + intros; apply never_exits_Ok.
  - intros r. apply never_exits_bind; [apply IH |].
    intros; apply never_exits_Ok.
Qed.

Lemma never_exits_percentiles {D : Type} `{Double D} (sorted : list Z)
    (fastest : Z) (l : list (Z * Z)) :
  never_exits (percentiles sorted fastest l).
Proof.
  induction l as [| pi l IH]; cbn [percentiles]; [apply never_exits_Ok |].
  apply never_exits_bind.
  - unfold percentile. apply never_exits_bind; [apply never_exits_rd |].
    intros; apply never_exits_Ok.
  - intros r. apply never_exits_bind; [apply IH |].
    intros; apply never_exits_Ok.
Qed.

Lemma never_exits_summarize {D : Type} `{Double D} (sorted : list Z)
    (runs fastest slowest total iter_count : Z) :
  never_exits (summarize sorted runs fastest slowest total iter_count).
Proof.
  unfold summarize.
  repeat (apply never_exits_bind;
          [first [apply never_exits_rd | apply never_exits_ull_div] | intros ?]).
  apply never_exits_Ok.
Qed.

Lemma hist_pass_exit {D : Type} `{Double D} (fastest : Z) (l : list Z) :
  forall (st : hist_state) (code : Z),
    hist_pass fastest l st = Exit code ->
    code = 1 /\
    exists t idx, t ∈ l /\
      hist_idx (pct_over t fastest) BUCKETS = Ok idx /\ idx < 0.
Proof.
  induction l as [| t l IH]; intros st code; cbn [hist_pass];
    [discriminate |].
  destruct (hist_step fastest st t) as [st1 | c |] eqn:Hstep;
    cbn [mbind res_bind]; [| | discriminate].
  - intros Hl. destruct (IH st1 code Hl) as (-> & t' & idx & Hin & Hidx & Hneg).
    split; [reflexivity |]. exists t', idx. split; [now right | now split].
  - intros [= <-]. unfold hist_step in Hstep.
    destruct (hist_idx (pct_over t fastest) BUCKETS) as [idx | c' |] eqn:Hidx;
      cbn [mbind res_bind] in Hstep; [| | discriminate].
    + destruct (Z.ltb_spec idx 0) as [Hneg | Hpos].
      * injection Hstep as <-. split; [reflexivity |].
        exists t, idx. split; [now left | now split].
      * exfalso. revert Hstep. apply never_exits_bind;
          [apply never_exits_rd | intros; apply never_exits_Ok].
    + exfalso. now apply (never_exits_hist_idx (pct_over t fastest) BUCKETS c').
Qed.

(** ** Instances *)

Lemma run_loop_makes_witness :
  let r := run_loop (Z.to_nat 100) 100 (fun i => (i <? 2)%nat)
             (fun i => tick (default 0 ([100000; 100500] !! i))) 0
             (@run_init float binary64) in
  r.1 = 2%nat /\
  runs_us r.2
  = map (fun i => elapsed_us (tick (default 0 ([100000; 100500] !! i))))
      (seq 0 2).
Proof.
  apply (run_loop_makes (D := float) 100 (fun i => (i <? 2)%nat)
           (fun i => tick (default 0 ([100000; 100500] !! i))) 2).
  - intros x Hx. apply Nat.ltb_lt. lia.
  - lia.
  - right. reflexivity.
Defined.

Lemma hist_holds_landed_witness :
  hist example_hist !! Z.to_nat 15
  = Some (@landed float binary64 100 15 example_runs).
Proof.
  apply (hist_holds_landed (D := float) 100 example_runs example_hist 15).
  - unfold INT_MAX. cbn. lia.
  - vm_compute. reflexivity.
  - lia.
Defined.

(** ** The percentile index beyond 21691754 runs *)

Lemma rd_replicate (n : nat) (x i : Z) :
  0 <= i < Z.of_nat n -> rd (replicate n x) i = Ok x.
Proof.
  intros Hi. unfold rd. destruct (Z.ltb_spec i 0); [lia |].
  rewrite lookup_replicate_2 by lia. reflexivity.
Qed.

Lemma percentiles_stop {D : Type} `{Double D} (sorted : list Z)
    (fastest i50 i90 i99 i100 x50 x90 : Z) :
  rd sorted i50 = Ok x50 -> rd sorted i90 = Ok x90 -> i99 < 0 ->
  percentiles sorted fastest [(50, i50); (90, i90); (99, i99); (100, i100)]
  = Undef (OutOfBounds i99).
Proof.
  intros H50 H90 H99. cbn [percentiles]. unfold percentile. cbn [fst snd].
  rewrite H50, H90. cbn [mbind res_bind]. unfold rd.
  destruct (Z.ltb_spec i99 0); [reflexivity | lia].
Qed.

(** C5, at 21691755 completed runs (p1bench 1 21691755): the percentile
    line sets out to print the 50th, 90th, 99th and 100th percentiles, but
    the index of the 99th is [runs * 99 / 100 - 1] in [int], and 21691755
    * 99 = 2147483745 is above [INT_MAX]; the product wraps to -2147483551
    and the index is -21474836.  Whatever the times (here 1000 us each)
    the 50th and the 90th are read inside the array, at 10845876 and
    19522578, and then the 99th at [runs_us[-21474836]], outside it:
    the 99th and the 100th percentile of the runs are not reported.  Up to
    21691754 runs the line is as the claim says ([percentiles_defined],
    [percentile_gates]). *)
Theorem percentile_index_wraps :
  let runs := 21691755 in
  let sorted := replicate (Z.to_nat runs) 1000 in
  Z.of_nat (length sorted) = runs /\
  sint (runs * 99) = -2147483551 /\
  percentile_reads runs
  = [(50, 10845876); (90, 19522578); (99, -21474836); (100, 21691754)] /\
  @percentiles float binary64 sorted 1000 (percentile_reads runs)
  = Undef (OutOfBounds (-21474836)).
Proof.
  cbv zeta. split; [rewrite length_replicate; lia |].
  split; [vm_compute; reflexivity |].
  assert (E : percentile_reads 21691755
              = [(50, 10845876); (90, 19522578); (99, -21474836);
                 (100, 21691754)]) by (vm_compute; reflexivity).
  split; [exact E |]. rewrite E.
  apply (percentiles_stop _ _ _ _ _ _ 1000 1000);
    [apply rd_replicate; lia | apply rd_replicate; lia | lia].
Qed.

(** ** The count the calibration gives *)

Lemma trials_attained (clock : nat -> timeval * timeval) (n : nat) :
  forall (i : nat) (best : Z),
    trials n i clock best = best \/
    exists j, (i <= j < i + n)%nat /\
              trials n i clock best = elapsed_us (clock j).
Proof.
  induction n as [| n IH]; intros i best; cbn [trials]; [now left |].
  set (t := elapsed_us (clock i)).
  destruct (IH (S i) (if t <? best then t else best))
    as [-> | (j & Hj & ->)].
  - destruct (Z.ltb_spec t best); [| now left].
    right. exists i. split; [lia | reflexivity].
  - right. exists j. split; [lia | reflexivity].
Qed.

Lemma trials_min (clock : nat -> timeval * timeval) (n : nat) (T : Z) :
  (exists j, (j < n)%nat /\ elapsed_us (clock j) = T) ->
  (forall j, (j < n)%nat -> T <= elapsed_us (clock j)) ->
  trials n 0 clock ULLONG_MAX = T.
Proof.
  intros (j & Hj & Hat) Hlow.
  destruct (trials_bounds clock n 0 ULLONG_MAX
              ltac:(unfold ULLONG_MAX; lia)) as [[_ Hbest] Hall].
  pose proof (Hall j ltac:(lia)) as Hle. rewrite Hat in Hle.
  destruct (trials_attained clock n 0 ULLONG_MAX) as [E | (j' & Hj' & E)].
  - pose proof (ull_range (1000000 * (tv_sec (clock j).2 - tv_sec (clock j).1)
                           + (tv_usec (clock j).2 - tv_usec (clock j).1) ÷ 1))
      as Ht. fold (elapsed_us (clock j)) in Ht. lia.
  - pose proof (Hlow j' ltac:(lia)). lia.
Qed.

(** If the calibration probe reaches the count K and the best time of the
    timed trials, the minimum T of their elapsed times, is positive, then
    [find_count] returns K * target_us / T whenever the product
    K * target_us fits an [unsigned long long]; for a target of 2 * T the
    count is 2 * K exactly. *)
Theorem find_count_scales (target_us test_us test_runs K T : Z)
    (w : worker) (clock : nat -> timeval * timeval) :
  ull test_us <> 0 -> created w = true -> killed w = true ->
  loop w 0 = K ->
  (exists j, (j < Z.to_nat test_runs)%nat /\ elapsed_us (clock j) = T) ->
  (forall j, (j < Z.to_nat test_runs)%nat -> T <= elapsed_us (clock j)) ->
  0 < T -> 0 <= K * target_us < 2 ^ 64 ->
  find_count target_us test_us test_runs w clock = Ok (K * target_us / T) /\
  (target_us = 2 * T -> K * target_us / T = 2 * K).
Proof.
  intros Htest Hc Hk HK Hat Hlow HT Hprod. split.
  - unfold find_count, test_run.
    destruct (Z.eqb_spec (ull test_us) 0); [contradiction |].
    rewrite Hc, Hk, HK. cbn [negb mbind res_bind].
    rewrite (trials_min clock (Z.to_nat test_runs) T Hat Hlow).
    unfold ull_div. destruct (Z.eqb_spec T 0); [lia |].
    unfold ull. rewrite Z.mod_small; [reflexivity | lia].
  - intros ->. replace (K * (2 * T)) with (2 * K * T) by lia.
    apply Z.div_mul. lia.
Qed.

Lemma find_count_scales_witness :
  let clock := fun i : nat =>
    tick (default 0 ([120000; 100000; 110000; 105000; 130000] !! i)) in
  find_count 200000 100000 5 calib_example clock
    = Ok (300000000 * 200000 / 100000) /\
  (200000 = 2 * 100000 -> 300000000 * 200000 / 100000 = 2 * 300000000).
Proof.
  apply (find_count_scales 200000 100000 5 300000000 100000 calib_example
           (fun i : nat =>
              tick (default 0
                      ([120000; 100000; 110000; 105000; 130000] !! i)))).
  - vm_compute. discriminate.
  - reflexivity.
  - reflexivity.
  - reflexivity.
  - exists 1%nat. split; [cbn; lia | reflexivity].
  - intros j Hj. change (Z.to_nat 5) with 5%nat in Hj.
    do 5 (destruct j as [| j]; [vm_compute; discriminate |]). lia.
  - lia.
  - lia.
Defined.

(** ** The loop that populates the working set *)

Lemma populate_inv (g_memsize pagesize : Z) :
  0 < pagesize ->
  forall (fuel : nat) (memp : Z),
    Z.max 0 (g_memsize - memp) < Z.of_nat fuel ->
    exists l, populate fuel g_memsize pagesize memp = Some l /\
      Forall (fun off => memp <= off < g_memsize /\
                         (off - memp) mod pagesize = 0) l /\
      forall x, memp <= x < g_memsize ->
                exists off, off ∈ l /\ off <= x < off + pagesize.
Proof.
  intros Hp. induction fuel as [| fuel IH]; intros memp Hfuel;
    cbn [populate]; [lia |].
  destruct (Z.ltb_spec memp g_memsize) as [Hlt | Hge].
  - destruct (IH (memp + pagesize) ltac:(lia)) as (l & -> & Hall & Hcov).
    exists (memp :: l). split; [reflexivity |]. split.
    + constructor; [split; [lia | now rewrite Z.sub_diag] |].
      eapply Forall_impl; [exact Hall |]. cbn. intros off [Hoff Hmod].
      split; [lia |].
      replace (off - memp) with (off - (memp + pagesize) + 1 * pagesize)
        by lia.
      now rewrite Z_mod_plus_full.
    + intros x Hx. destruct (Z.lt_ge_cases x (memp + pagesize)).
      * exists memp. split; [now left | lia].
      * destruct (Hcov x ltac:(lia)) as (off & Hin & Hoff).
        exists off. split; [now right | assumption].
  - exists []. split; [reflexivity |]. split; [constructor |].
    intros x Hx. lia.
Qed.

(** With a page size of 1 or more the loop that populates the working set
    ends (a fuel above the size is enough) and writes inside the working
    set only, at the multiples of the page size: every byte of the working
    set is less than a page size above an offset written.  When the block
    starts on a page boundary ([g_mem] a multiple of the page size), the
    page of every byte of the working set holds a byte written; the
    theorem says nothing of the pages of a block that does not. *)
Theorem populate_writes (g_mem g_memsize pagesize : Z) (fuel : nat) :
  0 < pagesize -> 0 <= g_memsize < Z.of_nat fuel ->
  exists l, populate fuel g_memsize pagesize 0 = Some l /\
    Forall (fun off => 0 <= off < g_memsize /\ off mod pagesize = 0) l /\
    (forall x, 0 <= x < g_memsize ->
               exists off, off ∈ l /\ off <= x < off + pagesize) /\
    (g_mem mod pagesize = 0 ->
     forall x, 0 <= x < g_memsize ->
               exists off, off ∈ l /\
                 (g_mem + off) / pagesize = (g_mem + x) / pagesize).
Proof.
  intros Hp Hfuel.
  destruct (populate_inv g_memsize pagesize Hp fuel 0 ltac:(lia))
    as (l & Hl & Hall & Hcov).
  exists l. split; [assumption |]. split; [| split; [assumption |]].
  - eapply Forall_impl; [exact Hall |]. cbn. intros off [Hoff Hmod].
    now rewrite Z.sub_0_r in Hmod.
  - intros Halign x Hx. destruct (Hcov x Hx) as (off & Hin & Hoff).
    exists off. split; [assumption |].
    rewrite Forall_forall in Hall. destruct (Hall off Hin) as [_ Hmod].
    rewrite Z.sub_0_r in Hmod.
    apply Z.mod_divide in Halign as [a Ha]; [| lia].
    apply Z.mod_divide in Hmod as [b Hb]; [| lia].
    subst g_mem off.
    replace (a * pagesize + b * pagesize) with ((a + b) * pagesize) by lia.
    rewrite Z.div_mul by lia.
    apply (Z.div_unique_pos _ _ _ (x - b * pagesize)); [lia | ring].
Qed.

Lemma populate_writes_witness :
  exists l, populate (Z.to_nat 8193) 8192 4096 0 = Some l /\
    Forall (fun off => 0 <= off < 8192 /\ off mod 4096 = 0) l /\
    (forall x, 0 <= x < 8192 ->
               exists off, off ∈ l /\ off <= x < off + 4096) /\
    (40960 mod 4096 = 0 ->
     forall x, 0 <= x < 8192 ->
               exists off, off ∈ l /\
                 (40960 + off) / 4096 = (40960 + x) / 4096).
Proof. apply (populate_writes 40960 8192 4096 (Z.to_nat 8193)); lia. Defined.

(** ** The causes of an early return *)

Lemma bind_Exit {A B : Type} (m : res A) (k : A -> res B) (code : Z) :
  m ≫= k = Exit code ->
  m = Exit code \/ exists a, m = Ok a /\ k a = Exit code.
Proof.
  destruct m as [a | c |]; cbn [mbind res_bind].
  - right. eauto.
  - intros [= <-]. now left.
  - discriminate.
Qed.

Lemma never_exits_workload_reads (o : options) (count : Z) :
  never_exits (workload_reads o count).
Proof.
  unfold workload_reads. destruct (memory o); [| apply never_exits_Ok].
  generalize (memrun (memsize o) 64 count).2 as reads.
  induction reads as [| off reads IH]; cbn [inside];
    [apply never_exits_Ok |].
  destruct ((0 <=? off) && (off <? memsize o)); [assumption |].
  intros code. discriminate.
Qed.

(** [main] leaves early with 1 and nothing else, and only for a target
    of 0, an array of the runs that cannot be allocated, a working set
    (memory mode) that cannot be allocated, a calibration worker that
    cannot be created or signalled, or a run whose histogram index is
    negative. *)
Theorem main_exit_causes {D : Type} `{Double D} (w : world) (code : Z) :
  main w = Exit code ->
  code = 1 /\
  (target_us w = 0 \/ malloc_ok w = false \/
   (memsize (given w) <> 0 /\ mem_ok w = false) \/
   created (calib_worker w) = false \/ killed (calib_worker w) = false \/
   let r := run_loop (Z.to_nat (max_runs w)) (max_runs w) (mainrun w)
              (run_clock w) 0 run_init in
   exists t idx, t ∈ runs_us r.2 /\
     hist_idx (pct_over t (fastest_time_us r.2)) BUCKETS = Ok idx /\
     idx < 0).
Proof.
  unfold main. destruct (Z.eqb_spec (target_us w) 0) as [Ht | Ht].
  { intros [= <-]. split; [reflexivity | now left]. }
  destruct (malloc_ok w) eqn:Hm; cbn [negb].
  2: { intros [= <-]. split; [reflexivity | right; now left]. }
  intros Hexit. apply bind_Exit in Hexit as [Hws | (_ & _ & Hexit)].
  { unfold working_set in Hws.
    destruct (Z.eqb_spec (memsize (given w)) 0); [discriminate |].
    destruct (mem_ok w); cbn [negb] in Hws; [discriminate |].
    injection Hws as <-. split; [reflexivity |]. do 2 right. left.
    now split. }
  apply bind_Exit in Hexit as [Hrd | (_ & _ & Hexit)].
  { exfalso. destruct (created (calib_worker w));
      [now apply never_exits_workload_reads in Hrd | discriminate]. }
  apply bind_Exit in Hexit as [Hfc | (K & _ & Hexit)].
  { unfold find_count in Hfc.
    apply bind_Exit in Hfc as [Htr | (K & _ & Hdiv)];
      [| now apply never_exits_ull_div in Hdiv].
    unfold test_run in Htr. destruct (_ =? 0); [discriminate |].
    destruct (created (calib_worker w)); cbn [negb] in Htr.
    - destruct (killed (calib_worker w)); cbn [negb] in Htr;
        [discriminate |]. injection Htr as <-.
      split; [reflexivity |]. do 4 right. now left.
    - injection Htr as <-. split; [reflexivity |]. do 3 right. now left. }
  cbn zeta. destruct (run_loop _ _ _ _ _ _) as [i st]. cbn [fst snd].
  apply bind_Exit in Hexit as [Hrd | (_ & _ & Hexit)].
  { exfalso. destruct (0 <? i)%nat;
      [now apply never_exits_workload_reads in Hrd | discriminate]. }
  unfold post_process in Hexit.
  apply bind_Exit in Hexit as [Hpass | (hs & _ & Hexit)].
  { apply hist_pass_exit in Hpass as (-> & Hcause).
    split; [reflexivity |]. do 5 right. exact Hcause. }
  exfalso. revert Hexit.
  apply never_exits_bind; [apply never_exits_hist_rows |]. intros rows.
  apply never_exits_bind; [apply never_exits_percentiles |]. intros ps.
  apply never_exits_bind; [apply never_exits_summarize |]. intros sm.
  apply never_exits_Ok.
Qed.

Lemma main_exit_causes_witness :
  let w := {| given := {| memsize := 2 ^ 64 - 2 ^ 31; verbose := false;
                          memory := true |};
              target_us := 100000; max_runs := 100; malloc_ok := true;
              mem_ok := false; calib_worker := calib_example;
              calib_clock := fun _ => tick 100000;
              mainrun := fun _ => true;
              run_clock := fun _ => tick 100000 |} in
  1 = 1 /\
  (target_us w = 0 \/ malloc_ok w = false \/
   (memsize (given w) <> 0 /\ mem_ok w = false) \/
   created (calib_worker w) = false \/ killed (calib_worker w) = false \/
   let r := run_loop (Z.to_nat (max_runs w)) (max_runs w) (mainrun w)
              (run_clock w) 0 (@run_init float binary64) in
   exists t idx, t ∈ runs_us r.2 /\
     @hist_idx float binary64
       (@pct_over float binary64 t (fastest_time_us r.2)) BUCKETS = Ok idx /\
     idx < 0).
Proof.
  apply (main_exit_causes (D := float)
           {| given := {| memsize := 2 ^ 64 - 2 ^ 31; verbose := false;
                          memory := true |};
              target_us := 100000; max_runs := 100; malloc_ok := true;
              mem_ok := false; calib_worker := calib_example;
              calib_clock := fun _ => tick 100000;
              mainrun := fun _ => true;
              run_clock := fun _ => tick 100000 |} 1).
  reflexivity.
Defined.

(** ** Runs that all take the same time, on any doubles *)

Lemma landed_same {D : Type} `{Double D} (fastest t idx j : Z) (n : nat) :
  hist_idx (pct_over t fastest) BUCKETS = Ok idx ->
  landed fastest j (replicate n t) = if idx =? j then Z.of_nat n else 0.
Proof.
  intros Hidx. induction n as [| n IH]; cbn [replicate landed].
  - now destruct (idx =? j).
  - rewrite IH. unfold lands. rewrite Hidx. destruct (idx =? j); lia.
Qed.

Lemma same_runs_hist {D : Type} `{Double D} (t : Z) (n : nat)
    (hs : hist_state) :
  (1 <= n)%nat -> Z.of_nat n <= INT_MAX ->
  hist_pass t (replicate n t) hist_init = Ok hs ->
  exists idx, 0 <= idx < 200 /\
    hist hs = <[Z.to_nat idx := Z.of_nat n]> (replicate 200 0) /\
    max_idx hs = idx.
Proof.
  intros Hn Hmax Hpass.
  assert (Hlen : length (replicate n t) = n) by apply length_replicate.
  destruct (hist_pass_inv t _ hist_init hs 0 hist_init_inv
              ltac:(rewrite Hlen; lia) Hpass) as (H200 & _ & _).
  assert (Hidx : exists idx, 0 <= idx < 200 /\
                   hist_idx (pct_over t t) BUCKETS = Ok idx).
  { destruct n as [| n]; [lia |]. cbn [replicate hist_pass] in Hpass.
    apply bind_Ok in Hpass as (st1 & Hstep & _).
    apply hist_step_Ok in Hstep as (idx & c & Hidx & H0 & Hc & _).
    apply lookup_lt_Some in Hc. unfold hist_init in Hc. cbn [hist] in Hc.
    rewrite length_replicate in Hc. unfold BUCKETS in Hc.
    exists idx. split; [lia | assumption]. }
  destruct Hidx as (idx & Hrange & Hidx). exists idx.
  split; [assumption |].
  assert (Hhist : hist hs = <[Z.to_nat idx := Z.of_nat n]> (replicate 200 0)).
  { apply list_eq. intros i.
    destruct (decide (i < 200)%nat) as [Hi | Hi].
    - rewrite (hist_pass_landed t _ hist_init hs 0 hist_init_inv
                 ltac:(rewrite Hlen; lia) Hpass i 0).
      + rewrite (landed_same t t idx _ n Hidx).
        destruct (Z.eqb_spec idx (Z.of_nat i)) as [-> | Hne].
        * rewrite Nat2Z.id, list_lookup_insert_eq
            by (rewrite length_replicate; lia). reflexivity.
        * rewrite list_lookup_insert_ne by lia.
          now rewrite lookup_replicate_2 by lia.
      + unfold hist_init. cbn [hist]. apply lookup_replicate_2.
        unfold BUCKETS. lia.
    - rewrite !lookup_ge_None_2; [reflexivity | | lia].
      rewrite length_insert, length_replicate. lia. }
  split; [assumption |].
  destruct (hist_pass_top t _ hist_init hs 0 hist_init_inv
              ltac:(rewrite Hlen; lia) hist_init_top Hpass)
    as (Hm & Hzero & Hocc).
  assert (Hle : idx <= max_idx hs).
  { destruct (Z.le_gt_cases idx (max_idx hs)) as [| Hgt]; [assumption |].
    exfalso. rewrite Forall_forall in Hzero.
    assert (Hin : Z.of_nat n ∈ drop (Z.to_nat (max_idx hs + 1)) (hist hs)).
    { apply (list_elem_of_lookup_2 _
               (Z.to_nat idx - Z.to_nat (max_idx hs + 1))).
      rewrite lookup_drop, Hhist.
      replace (Z.to_nat (max_idx hs + 1)
               + (Z.to_nat idx - Z.to_nat (max_idx hs + 1)))%nat
        with (Z.to_nat idx) by lia.
      apply list_lookup_insert_eq. rewrite length_replicate. lia. }
    specialize (Hzero _ Hin). lia. }
  destruct Hocc as [Hz | (c & Hc & Hc1)]; [lia |].
  destruct (Z.eq_dec (max_idx hs) idx) as [| Hne]; [assumption |].
  rewrite Hhist, list_lookup_insert_ne in Hc by lia.
  apply lookup_replicate in Hc as [-> _]. lia.
Qed.

(** In every report of [main] over runs that all took the same time [t]
    (max_runs * 99 within int, total below 2^64 us): one bucket of the
    histogram holds all the runs, the others none, and it is the last row
    printed; every percentile printed reads the time [t]; and the four
    rates are the rate of a run of [t] us. *)
Theorem identical_runs {D : Type} `{Double D} (w : world) (rep : report D)
    (t : Z) :
  max_runs w * 99 <= INT_MAX -> main w = Ok rep ->
  Forall (fun x => x = t) (rep_sorted rep) ->
  0 < t -> rep_runs rep * t <= ULLONG_MAX ->
  (exists idx, 0 <= idx < 200 /\
     hist (rep_hist rep)
     = <[Z.to_nat idx := rep_runs rep]> (replicate 200 0) /\
     max_idx (rep_hist rep) = idx) /\
  Forall (fun p => p.1.2 = t) (rep_percentiles rep) /\
  Forall (fun rate => rate = ull (rep_iter_count rep * 1000000) / t)
    [fastest_rate (rep_summary rep); median_rate (rep_summary rep);
     mean_rate (rep_summary rep); slowest_rate (rep_summary rep)].
Proof.
  intros Hmax Hm Hsame Ht Htot.
  destruct (main_Ok_parts w rep Hm)
    as (i & st & hs & Hrun & Hpass & _ & Hps & Hsm & Hruns & Hhs & Hsorted).
  destruct (main_runs_inv w i st Hrun) as (Hinv & _ & Hi).
  rewrite Hruns, Hhs in *. clear Hruns Hhs. rewrite Hsorted in Hsame.
  assert (Hus : runs_us st = replicate i t).
  { destruct Hinv as (Hlen & _). rewrite <- Hlen. symmetry.
    apply replicate_as_Forall. split; [reflexivity |].
    rewrite <- (qsort_perm ullcmp). eapply Forall_impl; [exact Hsame |].
    cbn. congruence. }
  assert (Hsrt : qsort ullcmp (runs_us st) = replicate i t).
  { apply replicate_perm_eq. rewrite <- Hus. apply qsort_perm. }
  assert (H1 : (1 <= i)%nat).
  { destruct i as [| i]; [| lia]. exfalso. rewrite Hsrt in Hps.
    vm_compute in Hps. discriminate Hps. }
  pose proof (run_inv_fastest_in i st Hinv ltac:(lia)) as Hfin.
  rewrite Hus in Hfin. apply elem_of_replicate in Hfin as [Hfast _].
  rewrite Hsrt, Hfast in Hps, Hsm. rewrite Hus, Hfast in Hpass.
  split; [| split].
  - apply (same_runs_hist t i hs H1); [unfold INT_MAX in *; lia | assumption].
  - apply percentiles_values in Hps. eapply Forall_impl; [exact Hps |].
    intros [[p x] d] [Hx _]. cbn [fst snd] in *.
    now apply elem_of_replicate in Hx as [-> _].
  - pose proof (hist_pass_total _ _ hist_init hs eq_refl Hpass) as Htotal.
    cbn [hist_init total_time_us] in Htotal. rewrite Z.add_0_l in Htotal.
    assert (Hsum : Zsum (replicate i t) = Z.of_nat i * t).
    { clear. induction i as [| i IH]; [reflexivity |].
      cbn [replicate]. rewrite Zsum_cons, IH. lia. }
    rewrite Hsum in Htotal.
    assert (Hu : ull (Z.of_nat i * t) = Z.of_nat i * t).
    { unfold ull. apply Z.mod_small. unfold ULLONG_MAX in *. lia. }
    rewrite Hu in Htotal.
    unfold summarize in Hsm.
    apply bind_Ok in Hsm as (m & Hmed & Hsm).
    apply bind_Ok in Hsm as (x0 & Hx0 & Hsm).
    apply bind_Ok in Hsm as (r0 & Hr0 & Hsm).
    apply bind_Ok in Hsm as (m' & Hmed' & Hsm).
    apply bind_Ok in Hsm as (rm & Hrm & Hsm).
    apply bind_Ok in Hsm as (mean & Hmean & Hsm).
    apply bind_Ok in Hsm as (ra & Hra & Hsm).
    apply bind_Ok in Hsm as (xl & Hxl & Hsm).
    apply bind_Ok in Hsm as (rl & Hrl & Hsm).
    injection Hsm as <-.
    cbn [fastest_rate median_rate mean_rate slowest_rate].
    assert (Hval : forall j x, rd (replicate i t) j = Ok x -> x = t).
    { intros j x Hrd. apply rd_Ok in Hrd as [_ Hrd].
      now apply lookup_replicate in Hrd as [-> _]. }
    apply Hval in Hx0, Hmed', Hxl. subst x0 m' xl.
    apply ull_div_Ok in Hr0 as [_ ->]. apply ull_div_Ok in Hrm as [_ ->].
    apply ull_div_Ok in Hrl as [_ ->]. apply ull_div_Ok in Hmean as [_ ->].
    apply ull_div_Ok in Hra as [_ ->].
    assert (Hui : ull (Z.of_nat i) = Z.of_nat i).
    { unfold ull. apply Z.mod_small. unfold INT_MAX in *. lia. }
    rewrite Htotal, Hui, (Z.mul_comm (Z.of_nat i) t), Z.div_mul by lia.
    repeat constructor.
Qed.

Lemma identical_runs_witness :
  exists rep,
    @main float binary64
      (world_of 100000 3 300000000 100000 3 [100000; 100000; 100000])
    = Ok rep /\
    (exists idx, 0 <= idx < 200 /\
       hist (rep_hist rep)
       = <[Z.to_nat idx := rep_runs rep]> (replicate 200 0) /\
       max_idx (rep_hist rep) = idx) /\
    Forall (fun p => p.1.2 = 100000) (rep_percentiles rep) /\
    Forall (fun rate => rate = ull (rep_iter_count rep * 1000000) / 100000)
      [fastest_rate (rep_summary rep); median_rate (rep_summary rep);
       mean_rate (rep_summary rep); slowest_rate (rep_summary rep)].
Proof.
  eexists. split; [vm_compute; reflexivity |].
  apply (identical_runs (D := float)
           (world_of 100000 3 300000000 100000 3 [100000; 100000; 100000])).
  - unfold INT_MAX. cbn. lia.
  - vm_compute. reflexivity.
  - cbn [rep_sorted]. repeat constructor.
  - lia.
  - cbn [rep_runs]. unfold ULLONG_MAX. lia.
Defined.

(** ** The summary after the histogram pass *)

Lemma Zsum_lower (l : list Z) (b : Z) :
  Forall (fun t => b <= t) l -> b * Z.of_nat (length l) <= Zsum l.
Proof.
  induction 1 as [| t l Ht _ IH]; [cbn; lia |].
  rewrite Zsum_cons. cbn [length]. lia.
Qed.

(** Once the histogram pass is through, the two summary lines of [main]
    are defined (no read outside the sorted array, no division by zero)
    for two runs or more (42949672 at most), whatever the doubles, when
    no run took 0 us and the times add up to less than 2^64 us; the mean
    rate printed is that of the mean time, the sum of the times divided
    by their number. *)
Theorem summary_defined {D : Type} `{Double D} (runs_us : list Z)
    (fastest slowest iter_count : Z) (hs : hist_state) :
  hist_pass fastest runs_us hist_init = Ok hs ->
  (2 <= length runs_us)%nat -> Z.of_nat (length runs_us) * 50 <= INT_MAX ->
  Forall (fun t => 0 < t) runs_us -> Zsum runs_us <= ULLONG_MAX ->
  exists sm,
    summarize (qsort ullcmp runs_us) (Z.of_nat (length runs_us)) fastest
      slowest (total_time_us hs) iter_count = Ok sm /\
    mean_rate sm
    = ull (iter_count * 1000000)
      / (Zsum runs_us / Z.of_nat (length runs_us)).
Proof.
  intros Hpass Hn Hmax Hpos Hsum.
  pose proof (hist_pass_total _ _ hist_init hs eq_refl Hpass) as Htot.
  cbn [hist_init total_time_us] in Htot. rewrite Z.add_0_l in Htot.
  assert (Hlow : Z.of_nat (length runs_us) <= Zsum runs_us).
  { pose proof (Zsum_lower runs_us 1) as Hl. rewrite Z.mul_1_l in Hl.
    apply Hl. eapply Forall_impl; [exact Hpos |]. cbn. lia. }
  assert (Htot' : total_time_us hs = Zsum runs_us).
  { rewrite Htot. unfold ull. apply Z.mod_small.
    unfold ULLONG_MAX in *. lia. }
  destruct (summarize_defined (qsort ullcmp runs_us)
              (Z.of_nat (length runs_us)) fastest slowest (total_time_us hs)
              iter_count) as [sm Hsm].
  - now rewrite qsort_perm.
  - lia.
  - assumption.
  - now rewrite qsort_perm.
  - now rewrite Htot'.
  - exists sm. split; [assumption |]. unfold summarize in Hsm.
    apply bind_Ok in Hsm as (m & _ & Hsm).
    apply bind_Ok in Hsm as (x0 & _ & Hsm).
    apply bind_Ok in Hsm as (r0 & _ & Hsm).
    apply bind_Ok in Hsm as (m' & _ & Hsm).
    apply bind_Ok in Hsm as (rm & _ & Hsm).
    apply bind_Ok in Hsm as (mean & Hmean & Hsm).
    apply bind_Ok in Hsm as (ra & Hra & Hsm).
    apply bind_Ok in Hsm as (xl & _ & Hsm).
    apply bind_Ok in Hsm as (rl & _ & Hsm).
    injection Hsm as <-. cbn [mean_rate].
    apply ull_div_Ok in Hmean as [_ ->]. apply ull_div_Ok in Hra as [_ ->].
    rewrite Htot'. f_equal. f_equal. unfold ull. apply Z.mod_small.
    unfold INT_MAX in *. lia.
Qed.

Lemma summary_defined_witness :
  exists sm,
    @summarize float binary64 (qsort ullcmp example_runs)
      (Z.of_nat (length example_runs)) 100 300
      (total_time_us example_hist) 300000000 = Ok sm /\
    mean_rate sm
    = ull (300000000 * 1000000)
      / (Zsum example_runs / Z.of_nat (length example_runs)).
Proof.
  apply (summary_defined (D := float) example_runs 100 300 300000000
           example_hist).
  - vm_compute. reflexivity.
  - cbn. lia.
  - unfold INT_MAX. cbn. lia.
  - unfold example_runs. repeat constructor; lia.
  - vm_compute. discriminate.
Defined.

Lemma max_bucket_count_spec_witness :
  Forall (fun c => 0 <= c <= max_bucket_count example_hist)
    (shown example_hist) /\
  (max_bucket_count example_hist = 0 \/
   max_bucket_count example_hist ∈ shown example_hist) /\
  (example_runs <> [] -> 1 <= max_bucket_count example_hist).
Proof.
  apply (max_bucket_count_spec (D := float) 100 example_runs example_hist).
  - unfold INT_MAX. cbn. lia.
  - vm_compute. reflexivity.
Defined.

(** ** The labels of the histogram, on the doubles *)

Lemma hist_val_steps :
  forallb (fun i => dltb (@hist_val float binary64 i)
                      (@hist_val float binary64 (i + 1)))
    (seqZ 0 199) = true.
Proof. vm_compute. reflexivity. Qed.

(** On the IEEE doubles the labels of the histogram go up with the
    bucket: for every bucket i below the last, [hist_val i] is less than
    [hist_val (i + 1)]. *)
Theorem hist_val_increasing (i : Z) :
  0 <= i < 199 ->
  dltb (@hist_val float binary64 i) (@hist_val float binary64 (i + 1)) = true.
Proof.
  intros Hi. pose proof hist_val_steps as Hall.
  rewrite forallb_forall in Hall. apply (Hall i).
  apply list_elem_of_In, elem_of_seqZ. lia.
Qed.

Lemma hist_val_increasing_witness :
  dltb (@hist_val float binary64 28) (@hist_val float binary64 (28 + 1)) = true.
Proof. apply (hist_val_increasing 28). lia. Defined.

(** ** [main] in memory mode *)

Lemma inside_stops (g_memsize : Z) (reads : list Z) :
  forall (i : nat) (off : Z),
    reads !! i = Some off -> ~ (0 <= off < g_memsize) ->
    (forall j x, (j < i)%nat -> reads !! j = Some x -> 0 <= x < g_memsize) ->
    inside g_memsize reads = Undef (OutOfBounds off).
Proof.
  induction reads as [| r reads IH]; intros i off Hi Hout Hin;
    [discriminate |]. cbn [inside].
  destruct i as [| i].
  - injection Hi as ->.
    destruct (Z.leb_spec 0 off), (Z.ltb_spec off g_memsize);
      cbn [andb]; try reflexivity. lia.
  - pose proof (Hin 0%nat r ltac:(lia) eq_refl) as Hr.
    destruct (Z.leb_spec 0 r), (Z.ltb_spec r g_memsize); try lia.
    cbn [andb]. apply (IH i); [assumption | assumption |].
    intros j x Hj Hx. apply (Hin (S j) x); [lia | assumption].
Qed.

(** In memory mode, whatever the Mbytes given to [-m], [main] is undefined
    as soon as the calibration worker, once created, counts beyond the
    number of strides of the working set (g_memsize / 64): the workload
    reads at the offset [g_memsize], one byte past the block. *)
Theorem main_memory_mode_reads_past_end {D : Type} `{Double D} (w : world)
    (l : list option_c) :
  getopt_loop l defaults = Ok (given w) -> memory (given w) = true ->
  target_us w <> 0 -> malloc_ok w = true -> mem_ok w = true ->
  created (calib_worker w) = true ->
  memsize (given w) / 64 < loop (calib_worker w) 0 ->
  main w = Undef (OutOfBounds (memsize (given w))).
Proof.
  intros Hl Hmem Ht Hm Hok Hc Hcount.
  destruct (getopt_loop_memsize l defaults (given w) Hl)
    as [[_ Hd] | (_ & k & Hk & _ & Hs)].
  { rewrite Hmem in Hd. discriminate. }
  change (2 ^ 20) with 1048576 in Hs.
  assert (Hdiv : memsize (given w) / 64 = k * 16384).
  { rewrite Hs. replace (k * 1048576) with (k * 16384 * 64) by lia.
    apply Z.div_mul. lia. }
  rewrite Hdiv in Hcount.
  unfold main. destruct (Z.eqb_spec (target_us w) 0); [contradiction |].
  rewrite Hm. cbn [negb]. unfold working_set. rewrite Hok.
  destruct (Z.eqb_spec (memsize (given w)) 0); [lia |].
  cbn [negb mbind res_bind]. rewrite Hc. unfold workload_reads.
  rewrite Hmem. unfold memrun. cbn [snd].
  pose proof (mem_reads_cycle (memsize (given w)) 64 (k * 16384) ltac:(lia)
                ltac:(lia) ltac:(lia)
                (Z.to_nat (loop (calib_worker w) 0)) 0 ltac:(lia)) as E.
  rewrite Z.mul_0_l in E. rewrite E.
  rewrite (inside_stops _ _ (Z.to_nat (k * 16384)) (memsize (given w)));
    [reflexivity | | lia |].
  - rewrite list_lookup_fmap, lookup_seq_lt by lia.
    cbn [fmap option_fmap option_map]. f_equal.
    rewrite Z.add_0_l, Nat.add_0_l, Z2Nat.id, Z.mod_small by lia. lia.
  - intros j x Hj. rewrite list_lookup_fmap.
    destruct (seq 0 _ !! j) as [i |] eqn:Ei; [| discriminate].
    apply lookup_seq in Ei as [-> _]. cbn [fmap option_fmap option_map].
    intros [= <-]. cbn [Nat.add]. rewrite Z.add_0_l, Z.mod_small by lia. lia.
Qed.

Lemma main_memory_mode_reads_past_end_witness :
  let w :=
    {| given := {| memsize := 1048576; verbose := false; memory := true |};
       target_us := 100000; max_runs := 100; malloc_ok := true;
       mem_ok := true; calib_worker := calib_example;
       calib_clock := fun _ => tick 100000;
       mainrun := fun _ => true;
       run_clock := fun _ => tick 100000 |} in
  @main float binary64 w = Undef (OutOfBounds (memsize (given w))).
Proof.
  intros w.
  apply (main_memory_mode_reads_past_end (D := float) w [Opt_m 1]);
    try reflexivity; try discriminate.
Defined.
